(** * One-versus-all squared-hinge SVM (solution.py)

    A shallow embedding of the class [SVM] of [solution.py] and the
    properties of its methods.

    Conventions of the embedding.
    - Python and NumPy exceptions are values of [exn]; a computation that
      may raise has type [py A] (the sum [exn + A]).
    - A NumPy float is an exact real number ([R]); rounding, overflow and
      the propagation of nan through arithmetic are outside the model.  The
      one place where the code divides a NumPy integer by a length that may
      be zero ([compute_accuracy]) yields a value of [npfloat], which has a
      non-finite case.
    - A two-dimensional NumPy array is an [ndarray]: its rows, together
      with its column count (so that an array with no row still has a
      shape).  Integer arrays are [ndarray Z], float arrays [ndarray R].
    - Elementwise binary operations broadcast as NumPy does on two
      dimensions.
    - The instance attributes [w], [m] and [num_features] do not exist
      before [fit] assigns them: they are [option] fields, and reading a
      missing one raises [AttributeError].
    - [verbose] only controls a [print]; standard output is not modelled.
    - A method that does not read [self] is a function without that
      parameter.  A method that raises yields the exception alone: what the
      instance holds after an exception is not tracked.
    - [==] on two one-dimensional arrays whose lengths do not broadcast
      raises [ValueError], as NumPy does since 1.25.
    - NumPy is NumPy 2.  A Python [int] added to a NumPy integer scalar
      takes the scalar's dtype and the sum wraps around in it: an integer
      array is a list of its entries together with its [int_dtype] where
      the code does such arithmetic ([y_train.max() + 1] in [fit]).  The
      2-norm of a matrix without entries is 0. *)

From Stdlib Require Import Reals Lra Lia ZArith List Bool Arith PeanoNat.
Import ListNotations.

(** ** Exceptions *)

Inductive exn : Type :=
| ValueError
| IndexError
| ZeroDivisionError
| AttributeError.

Definition py (A : Type) : Type := (exn + A)%type.

Definition ret {A : Type} (a : A) : py A := inr a.

Definition raise {A : Type} (e : exn) : py A := inl e.

Definition bind {A B : Type} (c : py A) (k : A -> py B) : py B :=
  match c with
  | inl e => inl e
  | inr a => k a
  end.

Notation "x <- c ;; k" := (bind c (fun x => k))
  (at level 61, c at next level, right associativity).

(** ** Python sequences: indices, ranges and slices *)

(** An index [k] into a sequence of length [len]: a negative index counts
    from the end, anything outside [-len, len) raises [IndexError]. *)
Definition norm_index (len : nat) (k : Z) : py nat :=
  if ((0 <=? k) && (k <? Z.of_nat len))%Z then ret (Z.to_nat k)
  else if ((k <? 0) && (- Z.of_nat len <=? k))%Z
       then ret (Z.to_nat (k + Z.of_nat len))
       else raise IndexError.

Fixpoint list_set {A : Type} (l : list A) (i : nat) (v : A) : list A :=
  match l, i with
  | [], _ => []
  | _ :: t, O => v :: t
  | h :: t, S i' => h :: list_set t i' v
  end.

(** [len(range(start, stop, step))] for a non-zero step. *)
Definition range_len (start stop step : Z) : nat :=
  if (0 <? step)%Z
  then (if (start <? stop)%Z then Z.to_nat ((stop - start - 1) / step + 1) else 0%nat)
  else (if (stop <? start)%Z then Z.to_nat ((start - stop - 1) / (- step) + 1) else 0%nat).

(** [range(start, stop, step)]: a zero step raises [ValueError]. *)
Definition py_range (start stop step : Z) : py (list Z) :=
  if (step =? 0)%Z then raise ValueError
  else ret (map (fun k => (start + Z.of_nat k * step)%Z)
                (seq 0 (range_len start stop step))).

(** A slice bound is clamped into [0, len], a negative one counting from
    the end. *)
Definition clamp_bound (len : nat) (k : Z) : nat :=
  if (k <? 0)%Z then Z.to_nat (Z.max 0 (k + Z.of_nat len))
  else Nat.min (Z.to_nat k) len.

(** [l[lo:hi]] *)
Definition py_slice {A : Type} (l : list A) (lo hi : Z) : list A :=
  let a := clamp_bound (length l) lo in
  let b := clamp_bound (length l) hi in
  firstn (b - a) (skipn a l).

(** ** Two-dimensional arrays *)

Record ndarray (A : Type) : Type := mk_ndarray {
  ncols : nat;
  rows : list (list A)
}.

Arguments mk_ndarray {A} ncols rows.
Arguments ncols {A} n.
Arguments rows {A} n.

Section Arrays.
Context {A : Type}.

Definition nrows (a : ndarray A) : nat := length (rows a).

Definition shape (a : ndarray A) : nat * nat := (nrows a, ncols a).

(** Every NumPy array is rectangular; of the values of type [ndarray A],
    those are the ones that stand for an array. *)
Definition rectangular (a : ndarray A) : Prop :=
  Forall (fun r => length r = ncols a) (rows a).

Definition entry (d : A) (a : ndarray A) (i j : nat) : A :=
  nth j (nth i (rows a) []) d.

(** The array of shape [(n, m)] whose entry [(i, j)] is [f i j]. *)
Definition tabulate (n m : nat) (f : nat -> nat -> A) : ndarray A :=
  mk_ndarray m (map (fun i => map (f i) (seq 0 m)) (seq 0 n)).

(** [np.full((n, m), v)] *)
Definition full (n m : nat) (v : A) : ndarray A :=
  mk_ndarray m (repeat (repeat v m) n).

(** [a[i, k] = v] *)
Definition setitem (a : ndarray A) (i k : Z) (v : A) : py (ndarray A) :=
  i' <- norm_index (nrows a) i ;;
  k' <- norm_index (ncols a) k ;;
  ret (mk_ndarray (ncols a)
         (list_set (rows a) i' (list_set (nth i' (rows a) []) k' v))).

(** [a[lo:hi]]: a slice of the rows. *)
Definition slice_rows (a : ndarray A) (lo hi : Z) : ndarray A :=
  mk_ndarray (ncols a) (py_slice (rows a) lo hi).

Definition map_array {B : Type} (f : A -> B) (a : ndarray A) : ndarray B :=
  mk_ndarray (ncols a) (map (map f) (rows a)).

(** [np.transpose(a)] *)
Definition transpose (d : A) (a : ndarray A) : ndarray A :=
  tabulate (ncols a) (nrows a) (fun i j => entry d a j i).

End Arrays.

(** *** Broadcasting *)

(** The length of a broadcast axis: equal lengths, or one of them is 1. *)
Definition broadcast_dim (d1 d2 : nat) : py nat :=
  if (d1 =? d2)%nat then ret d1
  else if (d1 =? 1)%nat then ret d2
  else if (d2 =? 1)%nat then ret d1
  else raise ValueError.

(** The index read on an axis of length [d] for the index [i] of the
    result. *)
Definition broadcast_index (d i : nat) : nat :=
  if (d =? 1)%nat then 0%nat else i.

Definition broadcast {A B C : Type} (da : A) (db : B) (op : A -> B -> C)
    (a : ndarray A) (b : ndarray B) : py (ndarray C) :=
  n <- broadcast_dim (nrows a) (nrows b) ;;
  m <- broadcast_dim (ncols a) (ncols b) ;;
  ret (tabulate n m (fun i j =>
         op (entry da a (broadcast_index (nrows a) i) (broadcast_index (ncols a) j))
            (entry db b (broadcast_index (nrows b) i) (broadcast_index (ncols b) j)))).

(** *** [np.argmax] *)

(** The order of a dtype, as a boolean test [gtb x y] for [x > y]. *)
Class Gt (A : Type) : Type := gtb : A -> A -> bool.

#[export] Instance Gt_Z : Gt Z := Z.gtb.

#[export] Instance Gt_R : Gt R :=
  fun x y => if Rlt_dec y x then true else false.

(** A left-to-right scan keeping the first index of the largest value seen
    so far: [best] was read at index [bi], and [l] begins at index [i]. *)
Fixpoint argmax_from {A : Type} `{Gt A} (best : A) (bi i : nat) (l : list A) : nat :=
  match l with
  | [] => bi
  | x :: l' =>
      if gtb x best then argmax_from x i (S i) l'
      else argmax_from best bi (S i) l'
  end.

Definition argmax {A : Type} `{Gt A} (l : list A) : nat :=
  match l with
  | [] => 0%nat
  | x :: l' => argmax_from x 0 1 l'
  end.

(** [np.argmax(a, axis=1)]: an axis of length zero raises [ValueError]. *)
Definition argmax_axis1 {A : Type} `{Gt A} (a : ndarray A) : py (list nat) :=
  if (ncols a =? 0)%nat then raise ValueError
  else ret (map argmax (rows a)).

(** ** [SVM.make_one_versus_all_labels] *)

(** The loop [for i in range(n): k = y[i]; ans[i, k] = 1], entered at row
    [i] with the labels [ys = y[i:]] still to come. *)
Fixpoint one_versus_all_loop (ys : list Z) (i : nat) (ans : ndarray Z)
    : py (ndarray Z) :=
  match ys with
  | [] => ret ans
  | k :: ys' =>
      ans' <- setitem ans (Z.of_nat i) k 1%Z ;;
      one_versus_all_loop ys' (S i) ans'
  end.

(** [np.ones((n, m))] raises [ValueError] for a negative [m]. *)
Definition make_one_versus_all_labels (y : list Z) (m : Z) : py (ndarray Z) :=
  let n := length y in
  if (m <? 0)%Z then raise ValueError
  else one_versus_all_loop y 0 (full n (Z.to_nat m) (-1)%Z).

(** ** Float arrays *)

Local Open Scope R_scope.

(** The sum of [f 0, ..., f (n - 1)]. *)
Fixpoint sigma (n : nat) (f : nat -> R) : R :=
  match n with
  | O => 0
  | S n' => sigma n' f + f n'
  end.

Definition Rsum (l : list R) : R := fold_right Rplus 0 l.

(** [np.sum(a)] *)
Definition np_sum (a : ndarray R) : R := Rsum (map Rsum (rows a)).

(** [a @ b]: the inner dimensions must agree. *)
Definition matmul (a b : ndarray R) : py (ndarray R) :=
  if (ncols a =? nrows b)%nat
  then ret (tabulate (nrows a) (ncols b) (fun i j =>
              sigma (ncols a) (fun k => entry 0 a i k * entry 0 b k j)))
  else raise ValueError.

(** [a * b], [a + b] and [a - b] on arrays. *)
Definition multiply : ndarray R -> ndarray R -> py (ndarray R) :=
  broadcast 0 0 Rmult.

Definition add : ndarray R -> ndarray R -> py (ndarray R) :=
  broadcast 0 0 Rplus.

Definition subtract : ndarray R -> ndarray R -> py (ndarray R) :=
  broadcast 0 0 Rminus.

(** [c * a] for a scalar [c]. *)
Definition scale (c : R) (a : ndarray R) : ndarray R := map_array (Rmult c) a.

(** [np.zeros([n, m])] *)
Definition zeros (n m : nat) : ndarray R := full n m 0.

(** [a.astype(float)], as NumPy promotes an integer array that meets a
    float array in an arithmetic operation. *)
Definition astype_float (a : ndarray Z) : ndarray R := map_array IZR a.

(** [x / n] for Python numbers, [n] an [int]. *)
Definition py_div (x : R) (n : nat) : py R :=
  if (n =? 0)%nat then raise ZeroDivisionError else ret (x / INR n).

(** *** [np.linalg.norm(a, ord=2)]

    For a two-dimensional array, [ord=2] is the largest singular value of
    the matrix, which is its operator norm: the least upper bound of the
    Euclidean length of [a v] over the vectors [v] of the unit ball. *)

(** The Euclidean length of the product of [a] and the vector [v]. *)
Definition image_length (a : ndarray R) (v : list R) : R :=
  sqrt (sigma (nrows a) (fun i =>
          (sigma (ncols a) (fun k => entry 0 a i k * nth k v 0)) ^ 2)).

Definition unit_ball (m : nat) (v : list R) : Prop :=
  length v = m /\ sigma m (fun k => nth k v 0 ^ 2) <= 1.

Definition stretch (a : ndarray R) (r : R) : Prop :=
  exists v, unit_ball (ncols a) v /\ r = image_length a v.

(** The squared Frobenius norm: the sum of the squares of all entries. *)
Definition frobenius_sq (a : ndarray R) : R :=
  sigma (nrows a) (fun i => sigma (ncols a) (fun k => entry 0 a i k ^ 2)).

Lemma sigma_le (n : nat) (f g : nat -> R) :
  (forall k, (k < n)%nat -> f k <= g k) -> sigma n f <= sigma n g.
Proof.
  induction n as [|n IH]; intros Hfg; simpl.
  - lra.
  - assert (sigma n f <= sigma n g) by (apply IH; intros; apply Hfg; lia).
    assert (f n <= g n) by (apply Hfg; lia).
    lra.
Qed.

Lemma sigma_ext (n : nat) (f g : nat -> R) :
  (forall k, (k < n)%nat -> f k = g k) -> sigma n f = sigma n g.
Proof.
  induction n as [|n IH]; intros Hfg; simpl.
  - reflexivity.
  - rewrite IH by (intros; apply Hfg; lia).
    rewrite Hfg by lia. reflexivity.
Qed.

Lemma sigma_nonneg (n : nat) (f : nat -> R) :
  (forall k, (k < n)%nat -> 0 <= f k) -> 0 <= sigma n f.
Proof.
  induction n as [|n IH]; intros Hf; simpl.
  - lra.
  - assert (0 <= sigma n f) by (apply IH; intros; apply Hf; lia).
    assert (0 <= f n) by (apply Hf; lia).
    lra.
Qed.

Lemma sigma_zero (n : nat) : sigma n (fun _ => 0) = 0.
Proof.
  induction n as [|n IH]; simpl; [reflexivity | rewrite IH; ring].
Qed.

Lemma mean_bound (s u v : R) :
  0 <= u -> 0 <= v -> s * s <= u * v -> 2 * s <= u + v.
Proof.
  intros Hu Hv Hs.
  destruct (Rle_lt_dec (2 * s) (u + v)) as [Hle | Hlt]; [exact Hle | exfalso].
  assert (Hsq : (u + v) * (u + v) < (2 * s) * (2 * s)) by nra.
  pose proof (Rle_0_sqr (u - v)) as Hd. unfold Rsqr in Hd.
  lra.
Qed.

(** The Cauchy-Schwarz inequality for finite sums. *)
Lemma cauchy_schwarz (n : nat) (f g : nat -> R) :
  sigma n (fun k => f k * g k) ^ 2
  <= sigma n (fun k => f k ^ 2) * sigma n (fun k => g k ^ 2).
Proof.
  induction n as [|n IH]; cbn [sigma].
  - lra.
  - set (s := sigma n (fun k => f k * g k)) in *.
    set (p := sigma n (fun k => f k ^ 2)) in *.
    set (q := sigma n (fun k => g k ^ 2)) in *.
    assert (Hp : 0 <= p) by (apply sigma_nonneg; intros; nra).
    assert (Hq : 0 <= q) by (apply sigma_nonneg; intros; nra).
    assert (Hm : 2 * (s * (f n * g n)) <= p * (g n * g n) + q * (f n * f n)).
    { apply mean_bound; [nra | nra |].
      assert (Hfg : 0 <= (f n * g n) * (f n * g n)) by nra.
      assert (Hs : s * s <= p * q) by lra.
      pose proof (Rmult_le_compat_r _ _ _ Hfg Hs) as Hmul.
      lra. }
    nra.
Qed.

Lemma image_length_bound (a : ndarray R) (v : list R) :
  unit_ball (ncols a) v -> image_length a v <= sqrt (frobenius_sq a).
Proof.
  intros [_ Hv]. unfold image_length, frobenius_sq.
  apply sqrt_le_1_alt, sigma_le. intros i _.
  pose proof (cauchy_schwarz (ncols a) (fun k => entry 0 a i k)
                (fun k => nth k v 0)) as Hcs.
  cbv beta in Hcs.
  assert (Ha : 0 <= sigma (ncols a) (fun k => entry 0 a i k ^ 2))
    by (apply sigma_nonneg; intros; nra).
  eapply Rle_trans; [exact Hcs |].
  rewrite <- (Rmult_1_r (sigma (ncols a) (fun k => entry 0 a i k ^ 2))) at 2.
  apply Rmult_le_compat_l; assumption.
Qed.

Lemma stretch_bound (a : ndarray R) : bound (stretch a).
Proof.
  exists (sqrt (frobenius_sq a)). intros r [v [Hv ->]].
  now apply image_length_bound.
Qed.

Lemma unit_ball_zero (m : nat) : unit_ball m (repeat 0 m).
Proof.
  split.
  - apply repeat_length.
  - rewrite (sigma_ext m _ (fun _ => 0)).
    + rewrite sigma_zero. lra.
    + intros k _. rewrite nth_repeat. ring.
Qed.

Lemma stretch_inhabited (a : ndarray R) : exists r, stretch a r.
Proof.
  exists (image_length a (repeat 0 (ncols a))), (repeat 0 (ncols a)).
  split; [apply unit_ball_zero | reflexivity].
Qed.

(** The operator norm of [a], the largest singular value of the matrix. *)
Definition operator_norm (a : ndarray R) : R :=
  proj1_sig (completeness (stretch a) (stretch_bound a) (stretch_inhabited a)).

(** [np.linalg.norm(a, ord=2)]: the largest singular value, the maximum
    being taken from 0, which is what an array with no entry gets (and
    what its operator norm is, see [operator_norm_empty]). *)
Definition linalg_norm_ord2 (a : ndarray R) : py R :=
  ret (operator_norm a).

(** ** The class [SVM] *)

Record SVM : Type := mk_SVM {
  eta : R;
  C : R;
  niter : Z;
  batch_size : Z;
  verbose : bool;
  num_features : option nat;
  m : option Z;
  w : option (ndarray R)
}.

(** [SVM.__init__] *)
Definition init (eta C : R) (niter batch_size : Z) (verbose : bool) : SVM :=
  mk_SVM eta C niter batch_size verbose None None None.

(** Reading [self.w]. *)
Definition get_w (self : SVM) : py (ndarray R) :=
  match w self with
  | Some a => ret a
  | None => raise AttributeError
  end.

(** Assigning [self.w]. *)
Definition set_w (self : SVM) (a : ndarray R) : SVM :=
  mk_SVM (eta self) (C self) (niter self) (batch_size self) (verbose self)
         (num_features self) (m self) (Some a).

(** ** [SVM.compute_loss] *)

(** [2 - (x @ self.w) * y] *)
Definition margins (self : SVM) (x y : ndarray R) : py (ndarray R) :=
  w0 <- get_w self ;;
  xw <- matmul x w0 ;;
  p <- multiply xw y ;;
  ret (map_array (fun t => 2 - t) p).

Definition compute_loss (self : SVM) (x y : ndarray R) : py R :=
  let n := nrows x in
  inv_n <- py_div 1 n ;;
  a <- margins self x y ;;
  let hinge_loss :=
    inv_n * np_sum (map_array (fun t => t ^ 2) (map_array (Rmax 0) a)) in
  w0 <- get_w self ;;
  nrm <- linalg_norm_ord2 w0 ;;
  let regularisation_loss := C self / 2 * nrm ^ 2 in
  let loss := hinge_loss + regularisation_loss in
  ret loss.

(** ** [SVM.compute_gradient] *)

Definition compute_gradient (self : SVM) (x y : ndarray R) : py (ndarray R) :=
  let n := nrows x in
  a1 <- margins self x y ;;
  let maxes := map_array (Rmax 0) a1 in
  w0 <- get_w self ;;
  let regularization_grad := scale (C self) w0 in
  a <- margins self x y ;;
  let ones_or_zeros :=
    map_array (fun t => if Rlt_dec 0 t then 1 else 0) a in
  c <- py_div (-2) n ;;
  ym <- multiply y maxes ;;
  ymo <- multiply ym ones_or_zeros ;;
  g <- matmul (transpose 0 x) ymo ;;
  let loss_grad := scale c g in
  add loss_grad regularization_grad.

(** ** [SVM.minibatch] *)

(** What [minibatch] asks of its iterables: [len] and slicing. *)
Class Sliceable (T : Type) : Type := {
  len : T -> nat;
  getslice : T -> Z -> Z -> T
}.

#[export] Instance Sliceable_list {A : Type} : Sliceable (list A) := {
  len := @length A;
  getslice := @py_slice A
}.

#[export] Instance Sliceable_ndarray {A : Type} : Sliceable (ndarray A) := {
  len := @nrows A;
  getslice := @slice_rows A
}.

(** The generator, as the sequence of the pairs it yields.  The
    [ValueError] of a zero step comes when the generator is first asked for
    a pair; the iterables are not written to while it runs. *)
Definition minibatch {T1 T2 : Type} `{Sliceable T1} `{Sliceable T2}
    (iterable1 : T1) (iterable2 : T2) (size : Z) : py (list (T1 * T2)) :=
  let l := Z.of_nat (len iterable1) in
  let n := size in
  r <- py_range 0 l n ;;
  ret (map (fun ndx =>
              let index2 := Z.min (ndx + n) l in
              (getslice iterable1 ndx index2, getslice iterable2 ndx index2))
           r).

(** ** [SVM.infer] *)

Definition infer (self : SVM) (x : ndarray R) : py (ndarray Z) :=
  w0 <- get_w self ;;
  y <- matmul x w0 ;;
  pred <- argmax_axis1 y ;;
  make_one_versus_all_labels (map Z.of_nat pred) (Z.of_nat (ncols y)).

(** ** [SVM.compute_accuracy] *)

(** The result of a NumPy division: a real number, or nan or an infinity
    when the divisor is zero. *)
Variant npfloat : Type :=
| Finite (r : R)
| NonFinite.

(** [good / n] for a NumPy integer [good]: dividing by zero warns and
    yields nan or inf, it does not raise. *)
Definition true_divide (good n : nat) : npfloat :=
  if (n =? 0)%nat then NonFinite else Finite (INR good / INR n).

(** [pred == true] on one-dimensional arrays; shapes that do not broadcast
    raise [ValueError]. *)
Definition equal (pred true : list nat) : py (list bool) :=
  n <- broadcast_dim (length pred) (length true) ;;
  ret (map (fun i =>
              (nth (broadcast_index (length pred) i) pred 0
               =? nth (broadcast_index (length true) i) true 0)%nat)
           (seq 0 n)).

(** [np.sum] of a boolean array. *)
Definition count_true (l : list bool) : nat := length (filter (fun b => b) l).

Definition compute_accuracy {A : Type} `{Gt A} (y_inferred y : ndarray A)
    : py npfloat :=
  true <- argmax_axis1 y ;;
  pred <- argmax_axis1 y_inferred ;;
  good <- (e <- equal pred true ;; ret (count_true e)) ;;
  ret (true_divide good (nrows y)).

(** ** [SVM.fit] *)

(** The integer dtypes of NumPy. *)
Inductive int_dtype : Type :=
| int8 | int16 | int32 | int64
| uint8 | uint16 | uint32 | uint64.

Definition dtype_bits (dt : int_dtype) : Z :=
  match dt with
  | int8 | uint8 => 8
  | int16 | uint16 => 16
  | int32 | uint32 => 32
  | int64 | uint64 => 64
  end.

Definition dtype_signed (dt : int_dtype) : bool :=
  match dt with
  | int8 | int16 | int32 | int64 => true
  | uint8 | uint16 | uint32 | uint64 => false
  end.

(** The least and the largest value of a dtype. *)
Definition dtype_min (dt : int_dtype) : Z :=
  if dtype_signed dt then (- 2 ^ (dtype_bits dt - 1))%Z else 0%Z.

Definition dtype_max (dt : int_dtype) : Z :=
  if dtype_signed dt then (2 ^ (dtype_bits dt - 1) - 1)%Z
  else (2 ^ dtype_bits dt - 1)%Z.

(** The value an integer takes in a dtype: the result of scalar arithmetic
    wraps around. *)
Definition wrap_dtype (dt : int_dtype) (v : Z) : Z :=
  ((v - dtype_min dt) mod 2 ^ dtype_bits dt + dtype_min dt)%Z.

(** The entries of an array of dtype [dt] are values of the dtype. *)
Definition in_dtype (dt : int_dtype) (y : list Z) : Prop :=
  Forall (fun j => dtype_min dt <= j <= dtype_max dt)%Z y.

(** [y.max()]: an empty array raises [ValueError]. *)
Definition array_max (y : list Z) : py Z :=
  match y with
  | [] => raise ValueError
  | k :: y' => ret (fold_left Z.max y' k)
  end.

(** [self.w -= d]: the in-place subtraction writes into [self.w], whose
    shape the broadcast result must have. *)
Definition isub_w (self : SVM) (d : ndarray R) : py SVM :=
  w0 <- get_w self ;;
  r <- subtract w0 d ;;
  if ((nrows r =? nrows w0) && (ncols r =? ncols w0))%nat
  then ret (set_w self r)
  else raise ValueError.

(** The four lists [fit] appends to. *)
Record history : Type := mk_history {
  train_losses : list R;
  train_accs : list npfloat;
  test_losses : list R;
  test_accs : list npfloat
}.

(** One pass through the mini-batches: the body of the inner [for]. *)
Fixpoint fit_pass (self : SVM) (batches : list (ndarray R * ndarray Z))
    : py SVM :=
  match batches with
  | [] => ret self
  | (x, y) :: rest =>
      grad <- compute_gradient self x (astype_float y) ;;
      self' <- isub_w self (scale (eta self) grad) ;;
      fit_pass self' rest
  end.

(** Loss and accuracy of the current weights on a data set. *)
Definition measure (self : SVM) (x : ndarray R) (y : ndarray Z)
    : py (R * npfloat) :=
  loss <- compute_loss self x (astype_float y) ;;
  y_inferred <- infer self x ;;
  accuracy <- compute_accuracy y_inferred y ;;
  ret (loss, accuracy).

(** One iteration of the outer [for]: a pass, then the four metrics,
    appended to the lists. *)
Definition fit_epoch (x_train : ndarray R) (y_train : ndarray Z)
    (x_test : ndarray R) (y_test : ndarray Z) (st : SVM * history)
    : py (SVM * history) :=
  let (self, h) := st in
  batches <- minibatch x_train y_train (batch_size self) ;;
  self' <- fit_pass self batches ;;
  train <- measure self' x_train y_train ;;
  test <- measure self' x_test y_test ;;
  ret (self',
       mk_history (train_losses h ++ [fst train]) (train_accs h ++ [snd train])
                  (test_losses h ++ [fst test]) (test_accs h ++ [snd test])).

(** [k] iterations of the outer [for]. *)
Fixpoint fit_loop (k : nat) (x_train : ndarray R) (y_train : ndarray Z)
    (x_test : ndarray R) (y_test : ndarray Z) (st : SVM * history)
    : py (SVM * history) :=
  match k with
  | O => ret st
  | S k' =>
      st' <- fit_epoch x_train y_train x_test y_test st ;;
      fit_loop k' x_train y_train x_test y_test st'
  end.

(** [fit] returns the four lists; the instance it leaves behind is the
    first component of the result.  [dt] is the dtype of the array
    [y_train]: [y_train.max()] is a scalar of that dtype, and so is
    [y_train.max() + 1]. *)
Definition fit (self : SVM) (x_train : ndarray R) (dt : int_dtype)
    (y_train : list Z) (x_test : ndarray R) (y_test : list Z)
    : py (SVM * history) :=
  let num_features' := ncols x_train in
  m0 <- array_max y_train ;;
  let m' := wrap_dtype dt (m0 + 1) in
  let self1 := mk_SVM (eta self) (C self) (niter self) (batch_size self)
                      (verbose self) (Some num_features') (Some m') (w self) in
  y_train' <- make_one_versus_all_labels y_train m' ;;
  y_test' <- make_one_versus_all_labels y_test m' ;;
  let self2 := set_w self1 (zeros num_features' (Z.to_nat m')) in
  fit_loop (Z.to_nat (niter self)) x_train y_train' x_test y_test'
           (self2, mk_history [] [] [] []).

(** [k] passes through the mini-batches, without the measurements: the
    weights as they stand after epoch [k]. *)
Fixpoint fit_passes (k : nat) (x_train : ndarray R) (y_train : ndarray Z)
    (self : SVM) : py SVM :=
  match k with
  | O => ret self
  | S k' =>
      batches <- minibatch x_train y_train (batch_size self) ;;
      self' <- fit_pass self batches ;;
      fit_passes k' x_train y_train self'
  end.

(** ** The formulas of the specification *)

(** Entry [(i, c)] of [margins = 2 - (X W) * Y]. *)
Definition spec_margin (W X Y : ndarray R) (i c : nat) : R :=
  2 - sigma (ncols X) (fun k => entry 0 X i k * entry 0 W k c) * entry 0 Y i c.

(** [(1/n) * sum of max(0, margins)^2]: the sum runs over all [n * m]
    entries, the mean is taken over the [n] rows. *)
Definition spec_hinge (W X Y : ndarray R) : R :=
  1 / INR (nrows X) *
  sigma (nrows X) (fun i =>
    sigma (ncols W) (fun c => Rmax 0 (spec_margin W X Y i c) ^ 2)).

(** The loss of the specification: the hinge term plus [C/2] times the
    squared Frobenius norm of [W]. *)
Definition spec_loss (c : R) (W X Y : ndarray R) : R :=
  spec_hinge W X Y + c / 2 * frobenius_sq W.

(** The 0/1 indicator of [margins > 0]. *)
Definition spec_active (W X Y : ndarray R) (i c : nat) : R :=
  if Rlt_dec 0 (spec_margin W X Y i c) then 1 else 0.

(** Entry [(f, c)] of
    [-(2/n) * X^T (Y * max(0, margins) * active) + C * W]. *)
Definition spec_gradient (c0 : R) (W X Y : ndarray R) (f c : nat) : R :=
  - (2 / INR (nrows X)) *
  sigma (nrows X) (fun i =>
    entry 0 X i f *
    (entry 0 Y i c * Rmax 0 (spec_margin W X Y i c) * spec_active W X Y i c))
  + c0 * entry 0 W f c.

(** Entry [j] of the one-versus-all row of the class [c]. *)
Definition sign_entry (c j : nat) : Z := if (j =? c)%nat then 1%Z else (-1)%Z.

(** The column a label [k] selects in a row of [m] columns, a negative
    label counting from the last column. *)
Definition label_column (m k : Z) : nat :=
  Z.to_nat (if (k <? 0)%Z then k + m else k)%Z.

(** ** The vocabulary of the properties *)

(** What the scan needs of the order: it is asymmetric, and an element
    that is not above another is below everything that one is below. *)
Class GtLaws (A : Type) `{Gt A} : Prop := {
  gtb_asym : forall x y : A, gtb x y = true -> gtb y x = false;
  gtb_cotrans : forall x y z : A,
    gtb x z = true -> gtb x y = true \/ gtb y z = true
}.

(** [r] is the first index of the largest value of [l]. *)
Definition first_max {A : Type} `{Gt A} (d : A) (l : list A) (r : nat)
    : Prop :=
  (r < length l)%nat /\
  (forall j, (j < length l)%nat -> gtb (nth j l d) (nth r l d) = false) /\
  (forall j, (j < r)%nat -> gtb (nth r l d) (nth j l d) = true).

(** The rows the loop has still to visit are rows of [ncols ans] entries. *)
Definition rows_from (i : nat) (ans : ndarray Z) : Prop :=
  forall r, (i <= r < nrows ans)%nat ->
            length (nth r (rows ans) []) = ncols ans.

(** Mini-batch [k] of the rows of [X], for batches of [sz] rows. *)
Definition chunk {A : Type} (X : ndarray A) (sz k : nat) : ndarray A :=
  mk_ndarray (ncols X) (firstn sz (skipn (k * sz) (rows X))).

(** Entry [(i, j)] of [scores = X W]. *)
Definition spec_score (W X : ndarray R) (i j : nat) : R :=
  sigma (ncols X) (fun k => entry 0 X i k * entry 0 W k j).

(** The class ids an array decodes to: the argmax of each row. *)
Definition decode {A : Type} `{Gt A} (a : ndarray A) : list nat :=
  map argmax (rows a).

(** The number of rows [i < n] at which two decoded vectors agree. *)
Definition agreements (n : nat) (p t : list nat) : nat :=
  count_true (map (fun i => (nth i p 0 =? nth i t 0)%nat) (seq 0 n)).

(** The instance as [fit] sets it up before the first epoch: the feature
    and class counts stored, the weights all zero. *)
Definition fit_init (self : SVM) (x_train : ndarray R) (m' : Z) : SVM :=
  set_w (mk_SVM (eta self) (C self) (niter self) (batch_size self)
                (verbose self) (Some (ncols x_train)) (Some m') (w self))
        (zeros (ncols x_train) (Z.to_nat m')).

(** Two instances that differ at most in their weights. *)
Definition same_config (s s' : SVM) : Prop :=
  eta s = eta s' /\ C s = C s' /\ niter s = niter s'
  /\ batch_size s = batch_size s' /\ verbose s = verbose s'
  /\ num_features s = num_features s' /\ m s = m s'.

(** The instance has weights, of shape [(F, k)]. *)
Definition weights_shape (F k : nat) (self : SVM) : Prop :=
  exists W, w self = Some W /\ nrows W = F /\ ncols W = k.

(** A mini-batch [fit_pass] can take a gradient step on. *)
Definition batch_ok (F k : nat) (b : ndarray R * ndarray Z) : Prop :=
  ncols (fst b) = F /\ ncols (snd b) = k
  /\ nrows (snd b) = nrows (fst b) /\ (1 <= nrows (fst b))%nat.

(** What every iteration of the outer loop finds and leaves behind. *)
Definition ready (F k : nat) (size : Z) (self : SVM) : Prop :=
  weights_shape F k self /\ batch_size self = size.

(** The calls of [fit] the properties below are about: a training set and
    a test set with at least one row each and as many labels as rows, over
    the same features, training labels that are not negative and below the
    largest value of their dtype (so that [max + 1] is a value of the
    dtype), test labels that are not negative and not above every training
    label, and a positive batch size. *)
Definition fit_inputs (self : SVM) (x_train : ndarray R) (dt : int_dtype)
    (y_train : list Z) (x_test : ndarray R) (y_test : list Z) : Prop :=
  (1 <= nrows x_train)%nat
  /\ length y_train = nrows x_train
  /\ Forall (fun j => 0 <= j < dtype_max dt)%Z y_train
  /\ (1 <= nrows x_test)%nat /\ ncols x_test = ncols x_train
  /\ length y_test = nrows x_test
  /\ Forall (fun j => (0 <= j)%Z /\ exists j', In j' y_train /\ (j <= j')%Z)
            y_test
  /\ (0 < batch_size self)%Z.

(** The number of epochs: [len(range(self.niter))]. *)
Definition epochs (self : SVM) : nat := Z.to_nat (niter self).

(** The training set of the end-to-end scenario of the specification,
    also taken as the test set. *)
Definition toy_x : ndarray R :=
  mk_ndarray 3 [[1; 0; 1]; [0; 1; 1]; [-1; 0; 1]; [0; -1; 1]].

Definition toy_y : list Z := [0; 1; 0; 1]%Z.

Definition toy_svm : SVM := init (1 / 100) (1 / 10) 50 4 false.

(** The number of indices [i < n] at which two label vectors agree. *)
Definition label_agreements (n : nat) (p t : list Z) : nat :=
  count_true (map (fun i => (nth i p 0 =? nth i t 0)%Z) (seq 0 n)).

(** The labels [fit] can encode: some training label, none negative and
    all below the largest value of their dtype [dt], and no test label
    negative or above every training label. *)
Definition labels_ok (dt : int_dtype) (y_train y_test : list Z) : Prop :=
  y_train <> []
  /\ Forall (fun j => 0 <= j < dtype_max dt)%Z y_train
  /\ Forall (fun j => (0 <= j)%Z /\ exists j', In j' y_train /\ (j <= j')%Z)
            y_test.

(** The instance [self] with another number of epochs. *)
Definition with_niter (n : Z) (self : SVM) : SVM :=
  mk_SVM (eta self) (C self) n (batch_size self) (verbose self)
         (num_features self) (m self) (w self).

(** * Properties *)

(** ** The exception monad *)

Lemma bind_ret {A B : Type} (c : py A) (k : A -> py B) (b : B) :
  bind c k = ret b -> exists a, c = ret a /\ k a = ret b.
Proof.
  destruct c as [e | a]; simpl; intros Hb.
  - discriminate Hb.
  - exists a. split; [reflexivity | exact Hb].
Qed.

Lemma bind_ret_l {A B : Type} (a : A) (k : A -> py B) :
  bind (ret a) k = k a.
Proof. reflexivity. Qed.

(** ** Lists *)

Lemma length_list_set {A : Type} (l : list A) (i : nat) (v : A) :
  length (list_set l i v) = length l.
Proof.
  revert i; induction l as [|h t IH]; intros [|i]; simpl; auto.
Qed.

Lemma nth_list_set {A : Type} (l : list A) (i j : nat) (v d : A) :
  (i < length l)%nat ->
  nth j (list_set l i v) d = if (j =? i)%nat then v else nth j l d.
Proof.
  revert i j; induction l as [|h t IH]; intros i j Hi; simpl in Hi.
  - lia.
  - destruct i as [|i], j as [|j]; simpl; auto.
    apply IH. lia.
Qed.

(** ** Arrays built entry by entry *)

Section TabulateFacts.
Context {A : Type}.

Lemma nrows_tabulate (n k : nat) (f : nat -> nat -> A) :
  nrows (tabulate n k f) = n.
Proof. unfold nrows, tabulate; simpl. now rewrite length_map, length_seq. Qed.

Lemma ncols_tabulate (n k : nat) (f : nat -> nat -> A) :
  ncols (tabulate n k f) = k.
Proof. reflexivity. Qed.

Lemma row_tabulate (n k : nat) (f : nat -> nat -> A) (i : nat) :
  (i < n)%nat -> nth i (rows (tabulate n k f)) [] = map (f i) (seq 0 k).
Proof.
  intros Hi. unfold tabulate; simpl.
  rewrite (nth_indep _ [] (map (f 0%nat) (seq 0 k)))
    by (now rewrite length_map, length_seq).
  rewrite (map_nth (fun i => map (f i) (seq 0 k)) (seq 0 n) 0%nat i).
  now rewrite seq_nth.
Qed.

Lemma entry_tabulate (d : A) (n k : nat) (f : nat -> nat -> A) (i j : nat) :
  (i < n)%nat -> (j < k)%nat -> entry d (tabulate n k f) i j = f i j.
Proof.
  intros Hi Hj. unfold entry. rewrite row_tabulate by assumption.
  rewrite (nth_indep _ d (f i 0%nat)) by (now rewrite length_map, length_seq).
  rewrite (map_nth (f i) (seq 0 k) 0%nat j).
  now rewrite seq_nth.
Qed.

Lemma rectangular_tabulate (n k : nat) (f : nat -> nat -> A) :
  rectangular (tabulate n k f).
Proof.
  unfold rectangular, tabulate; simpl. apply Forall_forall.
  intros r Hr. apply in_map_iff in Hr. destruct Hr as [i [<- _]].
  now rewrite length_map, length_seq.
Qed.

Lemma tabulate_ext (n k : nat) (f g : nat -> nat -> A) :
  (forall i j, (i < n)%nat -> (j < k)%nat -> f i j = g i j) ->
  tabulate n k f = tabulate n k g.
Proof.
  intros Hfg. unfold tabulate. f_equal.
  apply map_ext_in. intros i Hi. apply in_seq in Hi.
  apply map_ext_in. intros j Hj. apply in_seq in Hj.
  apply Hfg; lia.
Qed.

Lemma map_array_tabulate {B : Type} (h : A -> B) (n k : nat)
    (f : nat -> nat -> A) :
  map_array h (tabulate n k f) = tabulate n k (fun i j => h (f i j)).
Proof.
  unfold map_array, tabulate; simpl. f_equal.
  rewrite map_map. apply map_ext. intros i. now rewrite map_map.
Qed.

Lemma entry_map_array {B : Type} (h : A -> B) (d : A) (a : ndarray A)
    (i j : nat) :
  entry (h d) (map_array h a) i j = h (entry d a i j).
Proof.
  unfold entry, map_array; simpl.
  change (@nil B) with (map h (@nil A)).
  rewrite (map_nth (map h) (rows a) [] i).
  apply map_nth.
Qed.

Lemma nrows_map_array {B : Type} (h : A -> B) (a : ndarray A) :
  nrows (map_array h a) = nrows a.
Proof. unfold nrows, map_array; simpl. apply length_map. Qed.

End TabulateFacts.

Lemma broadcast_dim_same (d : nat) : broadcast_dim d d = ret d.
Proof. unfold broadcast_dim. now rewrite Nat.eqb_refl. Qed.

Lemma broadcast_index_lt (d i : nat) :
  (i < d)%nat -> broadcast_index d i = i.
Proof.
  unfold broadcast_index. intros Hi.
  destruct (Nat.eqb_spec d 1) as [-> | _]; lia.
Qed.

(** On equal shapes broadcasting is the plain entrywise operation. *)
Lemma broadcast_same {A B D : Type} (da : A) (db : B) (op : A -> B -> D)
    (a : ndarray A) (b : ndarray B) :
  nrows a = nrows b -> ncols a = ncols b ->
  broadcast da db op a b =
  ret (tabulate (nrows a) (ncols a)
         (fun i j => op (entry da a i j) (entry db b i j))).
Proof.
  intros Hr Hc. unfold broadcast.
  rewrite <- Hr, <- Hc, !broadcast_dim_same. simpl. f_equal.
  apply tabulate_ext. intros i j Hi Hj.
  now rewrite !broadcast_index_lt.
Qed.

(** ** [np.argmax]: the first index of the largest value *)

#[export] Instance GtLaws_Z : GtLaws Z.
Proof.
  split; unfold gtb, Gt_Z.
  - intros x y Hxy. apply Z.gtb_gt in Hxy.
    destruct (Z.gtb_spec y x); [lia | reflexivity].
  - intros x y z Hxz. apply Z.gtb_gt in Hxz.
    destruct (Z.gtb_spec x y); [now left | right].
    apply Z.gtb_gt. lia.
Qed.

#[export] Instance GtLaws_R : GtLaws R.
Proof.
  split; unfold gtb, Gt_R.
  - intros x y Hxy. destruct (Rlt_dec y x); [| discriminate].
    destruct (Rlt_dec x y); [lra | reflexivity].
  - intros x y z Hxz. destruct (Rlt_dec z x); [| discriminate].
    destruct (Rlt_dec y x); [now left | right].
    destruct (Rlt_dec z y); [reflexivity | lra].
Qed.

Section Argmax.
Context {A : Type} `{GtLaws A}.
Variable d : A.

Lemma gtb_irrefl (x : A) : gtb x x = false.
Proof.
  destruct (gtb x x) eqn:E; [| reflexivity].
  now rewrite (gtb_asym x x E) in E.
Qed.

Lemma argmax_from_first_max (l pre : list A) (best : A) (bi : nat) :
  nth bi pre d = best ->
  first_max d pre bi ->
  first_max d (pre ++ l) (argmax_from best bi (length pre) l).
Proof.
  revert pre best bi.
  induction l as [|x l IH]; intros pre best bi Hbest Hfm; simpl.
  - now rewrite app_nil_r.
  - destruct Hfm as [Hbi [Hmax Hfirst]].
    replace (pre ++ x :: l) with ((pre ++ [x]) ++ l)
      by (now rewrite <- app_assoc).
    replace (S (length pre)) with (length (pre ++ [x]))
      by (rewrite length_app; simpl; lia).
    destruct (gtb x best) eqn:Ex.
    + apply IH.
      * now rewrite app_nth2, Nat.sub_diag by lia.
      * repeat split.
        -- rewrite length_app; simpl; lia.
        -- intros j Hj. rewrite length_app in Hj; simpl in Hj.
           rewrite (app_nth2 pre [x] d (n := length pre)), Nat.sub_diag by lia.
           simpl.
           destruct (Nat.eq_dec j (length pre)) as [-> | Hne].
           ++ rewrite app_nth2, Nat.sub_diag by lia. apply gtb_irrefl.
           ++ rewrite app_nth1 by lia.
              destruct (gtb (nth j pre d) x) eqn:Ej; [| reflexivity].
              destruct (gtb_cotrans _ best _ Ej) as [E1 | E1].
              ** rewrite <- Hbest in E1. rewrite Hmax in E1 by lia.
                 discriminate.
              ** now rewrite (gtb_asym _ _ Ex) in E1.
        -- intros j Hj.
           rewrite (app_nth2 pre [x] d (n := length pre)), Nat.sub_diag by lia.
           simpl. rewrite app_nth1 by lia.
           destruct (gtb_cotrans _ (nth j pre d) _ Ex) as [E1 | E1].
           ++ exact E1.
           ++ rewrite <- Hbest in E1. rewrite Hmax in E1 by lia.
              discriminate.
    + apply IH.
      * now rewrite app_nth1 by lia.
      * repeat split.
        -- rewrite length_app; simpl; lia.
        -- intros j Hj. rewrite length_app in Hj; simpl in Hj.
           rewrite (app_nth1 pre [x] d (n := bi)) by lia.
           destruct (Nat.eq_dec j (length pre)) as [-> | Hne].
           ++ rewrite app_nth2, Nat.sub_diag by lia. simpl.
              now rewrite Hbest.
           ++ rewrite app_nth1 by lia. apply Hmax. lia.
        -- intros j Hj. rewrite !app_nth1 by lia. now apply Hfirst.
Qed.

Lemma argmax_first_max (l : list A) :
  l <> [] -> first_max d l (argmax l).
Proof.
  destruct l as [|x l]; intros Hl; [congruence |].
  apply (argmax_from_first_max l [x] x 0).
  - reflexivity.
  - repeat split; simpl.
    + lia.
    + intros j Hj. assert (j = 0)%nat as -> by lia. apply gtb_irrefl.
    + intros j Hj. lia.
Qed.

Lemma first_max_unique (l : list A) (r r' : nat) :
  first_max d l r -> first_max d l r' -> r = r'.
Proof.
  intros [Hr [Hm Hf]] [Hr' [Hm' Hf']].
  destruct (Nat.lt_trichotomy r r') as [Hlt | [Heq | Hgt]].
  - specialize (Hf' r Hlt). rewrite Hm in Hf' by assumption. discriminate.
  - exact Heq.
  - specialize (Hf r' Hgt). rewrite Hm' in Hf by assumption. discriminate.
Qed.

Lemma argmax_lt (l : list A) : l <> [] -> (argmax l < length l)%nat.
Proof. intros Hl. now destruct (argmax_first_max l Hl). Qed.

End Argmax.

(** ** The one-versus-all encoding *)

Lemma norm_index_in (len : nat) (k : Z) :
  (- Z.of_nat len <= k < Z.of_nat len)%Z ->
  norm_index len k = ret (label_column (Z.of_nat len) k)
  /\ (label_column (Z.of_nat len) k < len)%nat.
Proof.
  intros Hk. unfold norm_index, label_column.
  destruct (Z.ltb_spec k 0) as [Hneg | Hpos].
  - replace ((0 <=? k)%Z) with false by (symmetry; apply Z.leb_gt; lia).
    replace ((- Z.of_nat len <=? k)%Z) with true
      by (symmetry; apply Z.leb_le; lia).
    simpl. split; [reflexivity | lia].
  - replace ((0 <=? k)%Z) with true by (symmetry; apply Z.leb_le; lia).
    replace ((k <? Z.of_nat len)%Z) with true
      by (symmetry; apply Z.ltb_lt; lia).
    simpl. split; [reflexivity | lia].
Qed.

Lemma norm_index_out (len : nat) (k : Z) :
  (k < - Z.of_nat len \/ Z.of_nat len <= k)%Z ->
  norm_index len k = raise IndexError.
Proof.
  intros Hk. unfold norm_index.
  destruct (Z.leb_spec 0 k), (Z.ltb_spec k (Z.of_nat len)),
    (Z.ltb_spec k 0), (Z.leb_spec (- Z.of_nat len) k);
    simpl; try reflexivity; lia.
Qed.

Lemma setitem_in (ans : ndarray Z) (i : nat) (k : Z) :
  (i < nrows ans)%nat ->
  (- Z.of_nat (ncols ans) <= k < Z.of_nat (ncols ans))%Z ->
  setitem ans (Z.of_nat i) k 1%Z =
  ret (mk_ndarray (ncols ans)
         (list_set (rows ans) i
            (list_set (nth i (rows ans) [])
                      (label_column (Z.of_nat (ncols ans)) k) 1%Z))).
Proof.
  intros Hi Hk. unfold setitem.
  destruct (norm_index_in (nrows ans) (Z.of_nat i)) as [-> _]; [lia |].
  destruct (norm_index_in (ncols ans) k Hk) as [-> _].
  assert (Hrow : label_column (Z.of_nat (nrows ans)) (Z.of_nat i) = i).
  { unfold label_column.
    replace ((Z.of_nat i <? 0)%Z) with false by (symmetry; apply Z.ltb_ge; lia).
    apply Nat2Z.id. }
  rewrite !bind_ret_l, Hrow. reflexivity.
Qed.

Lemma setitem_out (ans : ndarray Z) (i : nat) (k : Z) :
  (i < nrows ans)%nat ->
  (k < - Z.of_nat (ncols ans) \/ Z.of_nat (ncols ans) <= k)%Z ->
  setitem ans (Z.of_nat i) k 1%Z = raise IndexError.
Proof.
  intros Hi Hk. unfold setitem.
  destruct (norm_index_in (nrows ans) (Z.of_nat i)) as [-> _]; [lia |].
  simpl. now rewrite norm_index_out.
Qed.

(** The loop rewrites the rows [i, ..., i + len(ys) - 1], each at the
    column its label selects, and leaves the others as they are. *)
Lemma one_versus_all_loop_rows (ys : list Z) :
  forall (i : nat) (ans : ndarray Z),
  Forall (fun k => - Z.of_nat (ncols ans) <= k < Z.of_nat (ncols ans))%Z ys ->
  (i + length ys <= nrows ans)%nat ->
  rows_from i ans ->
  exists ans',
    one_versus_all_loop ys i ans = ret ans'
    /\ ncols ans' = ncols ans
    /\ nrows ans' = nrows ans
    /\ forall r,
         nth r (rows ans') [] =
         if ((i <=? r) && (r <? i + length ys))%nat
         then list_set (nth r (rows ans) [])
                (label_column (Z.of_nat (ncols ans)) (nth (r - i) ys 0%Z)) 1%Z
         else nth r (rows ans) [].
Proof.
  induction ys as [|k ys IH]; intros i ans Hys Hlen Hrows; simpl.
  - exists ans. repeat split. intros r.
    destruct (Nat.leb_spec i r), (Nat.ltb_spec r (i + 0)); simpl;
      try reflexivity; lia.
  - simpl in Hlen. inversion Hys as [|k' ys' Hk Hys']; subst.
    rewrite setitem_in by (assumption || lia). rewrite bind_ret_l.
    set (ans1 := mk_ndarray (ncols ans) _).
    assert (Hn1 : nrows ans1 = nrows ans)
      by (unfold nrows, ans1; simpl; apply length_list_set).
    assert (Hnth1 : forall r, nth r (rows ans1) [] =
              if (r =? i)%nat
              then list_set (nth i (rows ans) [])
                     (label_column (Z.of_nat (ncols ans)) k) 1%Z
              else nth r (rows ans) []).
    { intros r. unfold ans1; simpl. apply nth_list_set. unfold nrows in Hlen.
      lia. }
    destruct (IH (S i) ans1) as [ans' [Hrun [Hc [Hr Hnth]]]].
    + exact Hys'.
    + rewrite Hn1. lia.
    + intros r Hr. rewrite Hnth1.
      destruct (Nat.eqb_spec r i); [lia |].
      apply Hrows. rewrite Hn1 in Hr. lia.
    + exists ans'. split; [exact Hrun |].
      split; [exact Hc |]. split; [now rewrite Hr |].
      intros r. rewrite Hnth, Hnth1. change (ncols ans1) with (ncols ans).
      destruct (Nat.eqb_spec r i) as [-> | Hne].
      * replace ((S i <=? i)%nat) with false by (symmetry; apply Nat.leb_gt; lia).
        replace ((i <=? i)%nat) with true by (symmetry; apply Nat.leb_le; lia).
        replace ((i <? i + S (length ys))%nat) with true
          by (symmetry; apply Nat.ltb_lt; lia).
        simpl. now rewrite Nat.sub_diag.
      * destruct (Nat.leb_spec (S i) r), (Nat.leb_spec i r),
          (Nat.ltb_spec r (S i + length ys)),
          (Nat.ltb_spec r (i + S (length ys))); simpl; try reflexivity; try lia.
        replace (r - i)%nat with (S (r - S i)) by lia. reflexivity.
Qed.

(** A label outside [-m, m) stops the loop with [IndexError]. *)
Lemma one_versus_all_loop_raises (ys : list Z) :
  forall (i : nat) (ans : ndarray Z),
  Exists (fun k => k < - Z.of_nat (ncols ans) \/ Z.of_nat (ncols ans) <= k)%Z ys ->
  (i + length ys <= nrows ans)%nat ->
  one_versus_all_loop ys i ans = raise IndexError.
Proof.
  induction ys as [|k ys IH]; intros i ans Hex Hlen; simpl.
  - inversion Hex.
  - simpl in Hlen.
    destruct (Z_lt_dec k (- Z.of_nat (ncols ans))) as [Hlo | Hlo].
    { rewrite setitem_out by lia. reflexivity. }
    destruct (Z_le_dec (Z.of_nat (ncols ans)) k) as [Hhi | Hhi].
    { rewrite setitem_out by lia. reflexivity. }
    rewrite setitem_in by lia. rewrite bind_ret_l.
    apply IH.
    + inversion Hex as [k' ys' Hbad | k' ys' Hbad]; subst; [lia | exact Hbad].
    + unfold nrows in *; simpl. rewrite length_list_set. lia.
Qed.

Lemma nrows_full {A : Type} (n k : nat) (v : A) : nrows (full n k v) = n.
Proof. unfold nrows, full; simpl. apply repeat_length. Qed.

Lemma row_full {A : Type} (n k : nat) (v : A) (r : nat) :
  (r < n)%nat -> nth r (rows (full n k v)) [] = repeat v k.
Proof.
  intros Hr. unfold full; simpl.
  rewrite (nth_indep _ [] (repeat v k)) by (now rewrite repeat_length).
  apply nth_repeat.
Qed.

(** A row of [-1] with a [1] written at column [c]. *)
Lemma nth_sign_row (k c j : nat) :
  (c < k)%nat -> (j < k)%nat ->
  nth j (list_set (repeat (-1)%Z k) c 1%Z) 0%Z = sign_entry c j.
Proof.
  intros Hc Hj. rewrite nth_list_set by (now rewrite repeat_length).
  unfold sign_entry. destruct (Nat.eqb_spec j c); [reflexivity |].
  now rewrite (nth_indep _ 0%Z (-1)%Z), nth_repeat by (now rewrite repeat_length).
Qed.

Lemma count_sign_row (k c : nat) :
  (c < k)%nat ->
  count_occ Z.eq_dec (list_set (repeat (-1)%Z k) c 1%Z) 1%Z = 1%nat.
Proof.
  revert c; induction k as [|k IH]; intros c Hc; [lia |].
  destruct c as [|c]; simpl.
  - destruct (Z.eq_dec 1 1) as [_ | Hne]; [| congruence]. f_equal.
    apply count_occ_not_In. intros Hin. apply repeat_spec in Hin. lia.
  - destruct (Z.eq_dec (-1) 1) as [Heq | _]; [lia |]. apply IH. lia.
Qed.

Lemma argmax_sign_row (k c : nat) :
  (c < k)%nat -> argmax (list_set (repeat (-1)%Z k) c 1%Z) = c.
Proof.
  intros Hc.
  set (row := list_set (repeat (-1)%Z k) c 1%Z).
  assert (Hlen : length row = k)
    by (unfold row; now rewrite length_list_set, repeat_length).
  assert (Hne : row <> []) by (intros E; rewrite E in Hlen; simpl in Hlen; lia).
  apply (first_max_unique 0%Z row); [now apply argmax_first_max |].
  unfold first_max, row. rewrite length_list_set, repeat_length.
  split; [exact Hc |]. split.
  - intros j Hj. rewrite !nth_sign_row by assumption.
    unfold sign_entry, gtb, Gt_Z. rewrite Nat.eqb_refl.
    now destruct (j =? c)%nat.
  - intros j Hj. rewrite !nth_sign_row by lia.
    unfold sign_entry, gtb, Gt_Z. rewrite Nat.eqb_refl.
    destruct (Nat.eqb_spec j c); [lia | reflexivity].
Qed.

(** The encoder on labels that index a column, from the front or from the
    back: row [i] is a row of [-1] with a single [1], at the column of
    [y[i]]. *)
Lemma make_one_versus_all_labels_rows (y : list Z) (m : Z) :
  (0 <= m)%Z ->
  Forall (fun k => - m <= k < m)%Z y ->
  exists Y,
    make_one_versus_all_labels y m = ret Y
    /\ nrows Y = length y
    /\ ncols Y = Z.to_nat m
    /\ forall i, (i < length y)%nat ->
         nth i (rows Y) [] =
         list_set (repeat (-1)%Z (Z.to_nat m)) (label_column m (nth i y 0%Z)) 1%Z
         /\ (label_column m (nth i y 0%Z) < Z.to_nat m)%nat.
Proof.
  intros Hm Hy. unfold make_one_versus_all_labels.
  replace ((m <? 0)%Z) with false by (symmetry; apply Z.ltb_ge; lia).
  set (ans := full (length y) (Z.to_nat m) (-1)%Z).
  assert (Hcols : Z.of_nat (ncols ans) = m) by (simpl; lia).
  destruct (one_versus_all_loop_rows y 0 ans) as [Y [Hrun [Hc [Hr Hnth]]]].
  - rewrite Hcols. exact Hy.
  - unfold ans. rewrite nrows_full. simpl. lia.
  - intros r Hr. unfold ans in *. rewrite nrows_full in Hr.
    rewrite row_full by lia. apply repeat_length.
  - exists Y. split; [exact Hrun |].
    split; [rewrite Hr; apply nrows_full |]. split; [exact Hc |].
    intros i Hi. rewrite Hnth, Hcols.
    replace ((0 <=? i)%nat && (i <? 0 + length y)%nat) with true
      by (symmetry; apply andb_true_iff; split;
          [apply Nat.leb_le | apply Nat.ltb_lt]; lia).
    rewrite Nat.sub_0_r. unfold ans. rewrite row_full by assumption.
    split; [reflexivity |].
    rewrite Forall_forall in Hy. specialize (Hy (nth i y 0%Z) (nth_In y 0%Z Hi)).
    unfold label_column. destruct (Z.ltb_spec (nth i y 0%Z) 0); lia.
Qed.

Lemma rectangular_nth {A : Type} (a : ndarray A) :
  (forall i, (i < nrows a)%nat -> length (nth i (rows a) []) = ncols a) ->
  rectangular a.
Proof.
  intros Hlen. apply Forall_forall. intros r Hr.
  destruct (In_nth _ _ [] Hr) as [i [Hi <-]]. now apply Hlen.
Qed.

(** C3: for a positive [m] and labels in [0, m), the encoder returns an
    array of shape [(n, m)] whose row [i] has [+1] at column [y[i]] and
    [-1] at every other column, so exactly one [+1], and the argmax of
    row [i] is [y[i]]. *)
Theorem make_one_versus_all_labels_spec (y : list Z) (m : Z) :
  (0 < m)%Z ->
  Forall (fun k => 0 <= k < m)%Z y ->
  exists Y,
    make_one_versus_all_labels y m = ret Y
    /\ shape Y = (length y, Z.to_nat m)
    /\ rectangular Y
    /\ forall i, (i < length y)%nat ->
         (forall j, (j < Z.to_nat m)%nat ->
            entry 0%Z Y i j = sign_entry (Z.to_nat (nth i y 0%Z)) j)
         /\ count_occ Z.eq_dec (nth i (rows Y) []) 1%Z = 1%nat
         /\ Z.of_nat (argmax (nth i (rows Y) [])) = nth i y 0%Z.
Proof.
  intros Hm Hy.
  destruct (make_one_versus_all_labels_rows y m) as [Y [Hrun [Hr [Hc Hrow]]]].
  - lia.
  - eapply Forall_impl; [| exact Hy]. simpl. intros k Hk. lia.
  - exists Y. split; [exact Hrun |].
    split; [unfold shape; now rewrite Hr, Hc |].
    split.
    + apply rectangular_nth. intros i Hi. rewrite Hr in Hi.
      destruct (Hrow i Hi) as [-> _].
      now rewrite length_list_set, repeat_length.
    + intros i Hi. destruct (Hrow i Hi) as [Hrow_i Hlt].
      rewrite Forall_forall in Hy.
      specialize (Hy (nth i y 0%Z) (nth_In y 0%Z Hi)).
      assert (Hcol : label_column m (nth i y 0%Z) = Z.to_nat (nth i y 0%Z)).
      { unfold label_column.
        destruct (Z.ltb_spec (nth i y 0%Z) 0); [lia | reflexivity]. }
      rewrite Hcol in *. unfold entry. rewrite Hrow_i.
      split; [| split].
      * intros j Hj. now apply nth_sign_row.
      * now apply count_sign_row.
      * rewrite argmax_sign_row by assumption. lia.
Qed.

Lemma make_one_versus_all_labels_spec_witness :
  exists Y,
    make_one_versus_all_labels [0; 2; 1]%Z 3 = ret Y
    /\ shape Y = (3%nat, 3%nat)
    /\ rectangular Y
    /\ forall i, (i < 3)%nat ->
         (forall j, (j < 3)%nat ->
            entry 0%Z Y i j = sign_entry (Z.to_nat (nth i [0; 2; 1]%Z 0%Z)) j)
         /\ count_occ Z.eq_dec (nth i (rows Y) []) 1%Z = 1%nat
         /\ Z.of_nat (argmax (nth i (rows Y) [])) = nth i [0; 2; 1]%Z 0%Z.
Proof.
  apply (make_one_versus_all_labels_spec [0; 2; 1]%Z 3).
  - lia.
  - repeat constructor; lia.
Defined.

(** C4, as the specification has it, fails: a label that is not in
    [[0, m)] never leaves a row of [-1] behind.  The label [2] with [m = 2]
    raises [IndexError], and the label [-1] puts the [+1] in the last
    column. *)
Lemma invalid_label_counterexample :
  make_one_versus_all_labels [2%Z] 2 = raise IndexError
  /\ make_one_versus_all_labels [(-1)%Z] 2
     = ret (mk_ndarray 2 [[(-1)%Z; 1%Z]]).
Proof. split; reflexivity. Qed.

(** C4, amended: the encoder validates nothing itself and leaves labels
    to the indexing of the array.  A label [k < -m] or [k >= m] makes the
    call raise [IndexError]; when every label is in [[-m, m)] the call
    returns, and the row of a negative label [k] has its single [+1] at
    column [m + k]. *)
Theorem make_one_versus_all_labels_invalid (y : list Z) (m : Z) :
  (0 <= m)%Z ->
  (Exists (fun k => k < - m \/ m <= k)%Z y ->
   make_one_versus_all_labels y m = raise IndexError)
  /\ (Forall (fun k => - m <= k < m)%Z y ->
      exists Y,
        make_one_versus_all_labels y m = ret Y
        /\ shape Y = (length y, Z.to_nat m)
        /\ forall i, (i < length y)%nat ->
             (forall j, (j < Z.to_nat m)%nat ->
                entry 0%Z Y i j = sign_entry (label_column m (nth i y 0%Z)) j)
             /\ count_occ Z.eq_dec (nth i (rows Y) []) 1%Z = 1%nat).
Proof.
  intros Hm. split.
  - intros Hex. unfold make_one_versus_all_labels.
    replace ((m <? 0)%Z) with false by (symmetry; apply Z.ltb_ge; lia).
    apply one_versus_all_loop_raises.
    + simpl. rewrite Z2Nat.id by lia. exact Hex.
    + rewrite nrows_full. simpl. lia.
  - intros Hy.
    destruct (make_one_versus_all_labels_rows y m Hm Hy)
      as [Y [Hrun [Hr [Hc Hrow]]]].
    exists Y. split; [exact Hrun |].
    split; [unfold shape; now rewrite Hr, Hc |].
    intros i Hi. destruct (Hrow i Hi) as [Hrow_i Hlt].
    unfold entry. rewrite Hrow_i. split.
    + intros j Hj. now apply nth_sign_row.
    + now apply count_sign_row.
Qed.

Lemma make_one_versus_all_labels_invalid_witness :
  make_one_versus_all_labels [1; 5]%Z 3 = raise IndexError
  /\ exists Y,
       make_one_versus_all_labels [(-1); 1]%Z 3 = ret Y
       /\ shape Y = (2%nat, 3%nat)
       /\ forall i, (i < 2)%nat ->
            (forall j, (j < 3)%nat ->
               entry 0%Z Y i j
               = sign_entry (label_column 3 (nth i [(-1); 1]%Z 0%Z)) j)
            /\ count_occ Z.eq_dec (nth i (rows Y) []) 1%Z = 1%nat.
Proof.
  split.
  - apply (make_one_versus_all_labels_invalid [1; 5]%Z 3); [lia |].
    apply Exists_cons_tl, Exists_cons_hd. lia.
  - apply (make_one_versus_all_labels_invalid [(-1); 1]%Z 3); [lia |].
    repeat constructor; lia.
Defined.

(** ** Mini-batches *)

Lemma firstn_add {A : Type} (a b : nat) (l : list A) :
  firstn (a + b) l = firstn a l ++ firstn b (skipn a l).
Proof.
  revert l; induction a as [|a IH]; intros l; simpl.
  - reflexivity.
  - destruct l as [|x l]; simpl.
    + now rewrite firstn_nil.
    + now rewrite IH.
Qed.

Lemma concat_chunks {A : Type} (l : list A) (sz q : nat) :
  concat (map (fun k => firstn sz (skipn (k * sz) l)) (seq 0 q))
  = firstn (q * sz) l.
Proof.
  induction q as [|q IH].
  - reflexivity.
  - rewrite seq_S, map_app, concat_app, IH. simpl.
    rewrite app_nil_r, <- firstn_add. f_equal. lia.
Qed.

(** The number of mini-batches of a positive size: the ceiling of
    [l / n]. *)
Lemma range_len_chunks (l : nat) (n : Z) :
  (0 < n)%Z ->
  let q := range_len 0 (Z.of_nat l) n in
  (forall k, (k < q)%nat -> (k * Z.to_nat n < l)%nat)
  /\ (l <= q * Z.to_nat n)%nat.
Proof.
  intros Hn q. unfold q, range_len.
  replace ((0 <? n)%Z) with true by (symmetry; apply Z.ltb_lt; lia).
  destruct (Z.ltb_spec 0 (Z.of_nat l)) as [Hl | Hl].
  - set (d := ((Z.of_nat l - 0 - 1) / n)%Z).
    assert (Hd0 : (0 <= d)%Z) by (apply Z.div_pos; lia).
    assert (Hd1 : (n * d <= Z.of_nat l - 0 - 1)%Z) by (apply Z.mul_div_le; lia).
    assert (Hd2 : (Z.of_nat l - 0 - 1 < n * Z.succ d)%Z)
      by (apply Z.mul_succ_div_gt; lia).
    split.
    + intros k Hk.
      assert (Hkd : (Z.of_nat k <= d)%Z) by lia.
      assert (Hkn : (Z.of_nat k * n <= n * d)%Z) by nia.
      apply Nat2Z.inj_lt. rewrite Nat2Z.inj_mul, Z2Nat.id by lia. lia.
    + apply Nat2Z.inj_le. rewrite Nat2Z.inj_mul, !Z2Nat.id by lia. nia.
  - split; [intros k Hk; lia | lia].
Qed.

Lemma py_slice_chunk {A : Type} (l : list A) (len k : nat) (n : Z) :
  (0 < n)%Z ->
  (k * Z.to_nat n < len)%nat ->
  length l = len ->
  py_slice l (0 + Z.of_nat k * n)
             (Z.min (0 + Z.of_nat k * n + n) (Z.of_nat len))
  = firstn (Z.to_nat n) (skipn (k * Z.to_nat n) l).
Proof.
  intros Hn Hk Hlen. unfold py_slice. rewrite Hlen.
  assert (Hkn : (0 <= Z.of_nat k * n)%Z) by nia.
  assert (Hto : Z.to_nat (Z.of_nat k * n) = (k * Z.to_nat n)%nat).
  { rewrite Z2Nat.inj_mul, Nat2Z.id by lia. reflexivity. }
  assert (Ha : clamp_bound len (0 + Z.of_nat k * n) = (k * Z.to_nat n)%nat).
  { unfold clamp_bound.
    replace ((0 + Z.of_nat k * n <? 0)%Z) with false
      by (symmetry; apply Z.ltb_ge; lia).
    rewrite Z.add_0_l, Hto. lia. }
  assert (Hb : clamp_bound len (Z.min (0 + Z.of_nat k * n + n) (Z.of_nat len))
               = Nat.min (k * Z.to_nat n + Z.to_nat n) len).
  { unfold clamp_bound.
    replace ((Z.min (0 + Z.of_nat k * n + n) (Z.of_nat len) <? 0)%Z) with false
      by (symmetry; apply Z.ltb_ge; lia).
    rewrite Z.add_0_l, Z2Nat.inj_min, Nat2Z.id, Z2Nat.inj_add, Hto by lia.
    lia. }
  rewrite Ha, Hb.
  destruct (Nat.le_ge_cases (k * Z.to_nat n + Z.to_nat n) len) as [Hle | Hge].
  - rewrite Nat.min_l by lia. f_equal. lia.
  - rewrite Nat.min_r by lia.
    rewrite !firstn_all2; [reflexivity | |]; rewrite length_skipn; lia.
Qed.

Lemma nrows_chunk {A : Type} (X : ndarray A) (sz k : nat) :
  nrows (chunk X sz k) = Nat.min sz (nrows X - k * sz).
Proof. unfold nrows, chunk; simpl. now rewrite length_firstn, length_skipn. Qed.

Lemma minibatch_chunks {A B : Type} (X : ndarray A) (Y : ndarray B) (size : Z) :
  (0 < size)%Z ->
  nrows Y = nrows X ->
  minibatch X Y size =
  ret (map (fun k => (chunk X (Z.to_nat size) k, chunk Y (Z.to_nat size) k))
           (seq 0 (range_len 0 (Z.of_nat (nrows X)) size))).
Proof.
  intros Hsize Hrows. unfold minibatch, py_range.
  replace ((size =? 0)%Z) with false by (symmetry; apply Z.eqb_neq; lia).
  rewrite bind_ret_l, map_map. f_equal.
  apply map_ext_in. intros k Hk. apply in_seq in Hk.
  destruct (range_len_chunks (nrows X) size Hsize) as [Hlt _].
  assert (Hks : (k * Z.to_nat size < nrows X)%nat) by (apply Hlt; lia).
  cbv beta zeta. unfold getslice, len, Sliceable_ndarray, slice_rows, chunk.
  rewrite (py_slice_chunk (rows X) (nrows X) k size) by auto.
  rewrite (py_slice_chunk (rows Y) (nrows X) k size) by auto.
  reflexivity.
Qed.

Lemma nth_error_map_seq {T : Type} (g : nat -> T) (q k : nat) (c : T) :
  nth_error (map g (seq 0 q)) k = Some c -> (k < q)%nat /\ c = g k.
Proof.
  intros Hk.
  assert (Hlt : (k < q)%nat).
  { assert (Hs : nth_error (map g (seq 0 q)) k <> None) by congruence.
    apply nth_error_Some in Hs. now rewrite length_map, length_seq in Hs. }
  split; [exact Hlt |].
  apply (nth_error_nth _ _ (g 0%nat)) in Hk.
  rewrite (map_nth g (seq 0 q) 0%nat k), seq_nth in Hk by assumption.
  now symmetry.
Qed.

(** C6: for a positive batch size and [X], [Y] of as many rows, the
    chunks put back together in order are [X] and [Y], and every chunk but
    the last has exactly [size] rows of each (the last has between 1 and
    [size]). *)
Theorem minibatch_partition {A B : Type} (X : ndarray A) (Y : ndarray B)
    (size : Z) :
  (0 < size)%Z ->
  nrows Y = nrows X ->
  exists chunks,
    minibatch X Y size = ret chunks
    /\ concat (map (fun c => rows (fst c)) chunks) = rows X
    /\ concat (map (fun c => rows (snd c)) chunks) = rows Y
    /\ (forall k c, nth_error chunks k = Some c ->
          ncols (fst c) = ncols X /\ ncols (snd c) = ncols Y
          /\ nrows (snd c) = nrows (fst c)
          /\ (1 <= nrows (fst c) <= Z.to_nat size)%nat
          /\ ((S k < length chunks)%nat -> nrows (fst c) = Z.to_nat size)).
Proof.
  intros Hsize Hrows.
  destruct (range_len_chunks (nrows X) size Hsize) as [Hlt Hge].
  set (q := range_len 0 (Z.of_nat (nrows X)) size) in *.
  exists (map (fun k => (chunk X (Z.to_nat size) k, chunk Y (Z.to_nat size) k))
              (seq 0 q)).
  split; [now apply minibatch_chunks |].
  split; [| split].
  - rewrite map_map. simpl. rewrite concat_chunks.
    apply firstn_all2. exact Hge.
  - rewrite map_map. simpl. rewrite concat_chunks.
    apply firstn_all2. fold (nrows Y). rewrite Hrows. exact Hge.
  - intros k c Hc. apply nth_error_map_seq in Hc. destruct Hc as [Hk ->].
    simpl. rewrite !nrows_chunk, Hrows, length_map, length_seq.
    pose proof (Hlt k Hk) as Hk0.
    repeat split; try lia.
    intros Hnext. pose proof (Hlt (S k) Hnext) as Hk1. simpl in Hk1. lia.
Qed.

Lemma minibatch_partition_witness :
  exists chunks,
    minibatch (mk_ndarray 1 [[1%Z]; [2%Z]; [3%Z]])
              (mk_ndarray 2 [[true; false]; [false; true]; [true; true]]) 2
    = ret chunks
    /\ concat (map (fun c => rows (fst c)) chunks) = [[1%Z]; [2%Z]; [3%Z]]
    /\ concat (map (fun c => rows (snd c)) chunks)
       = [[true; false]; [false; true]; [true; true]]
    /\ (forall k c, nth_error chunks k = Some c ->
          ncols (fst c) = 1%nat /\ ncols (snd c) = 2%nat
          /\ nrows (snd c) = nrows (fst c)
          /\ (1 <= nrows (fst c) <= 2)%nat
          /\ ((S k < length chunks)%nat -> nrows (fst c) = 2%nat)).
Proof.
  apply (minibatch_partition (mk_ndarray 1 [[1%Z]; [2%Z]; [3%Z]])
           (mk_ndarray 2 [[true; false]; [false; true]; [true; true]]) 2).
  - lia.
  - reflexivity.
Defined.

(** ** Sums over arrays *)

Lemma Rsum_app (l1 l2 : list R) : Rsum (l1 ++ l2) = Rsum l1 + Rsum l2.
Proof.
  induction l1 as [|x l1 IH]; simpl.
  - ring.
  - rewrite IH. ring.
Qed.

Lemma Rsum_map_seq (g : nat -> R) (k : nat) :
  Rsum (map g (seq 0 k)) = sigma k g.
Proof.
  induction k as [|k IH].
  - reflexivity.
  - rewrite seq_S, map_app, Rsum_app, IH. simpl. ring.
Qed.

Lemma np_sum_tabulate (n k : nat) (f : nat -> nat -> R) :
  np_sum (tabulate n k f) = sigma n (fun i => sigma k (f i)).
Proof.
  unfold np_sum, tabulate; simpl. rewrite map_map.
  rewrite (map_ext _ (fun i => sigma k (f i)))
    by (intros i; apply Rsum_map_seq).
  apply Rsum_map_seq.
Qed.

Lemma entry_scale (c : R) (a : ndarray R) (i j : nat) :
  entry 0 (scale c a) i j = c * entry 0 a i j.
Proof.
  unfold scale. rewrite <- (Rmult_0_r c) at 1. apply entry_map_array.
Qed.

Lemma matmul_eq (a b : ndarray R) :
  ncols a = nrows b ->
  matmul a b =
  ret (tabulate (nrows a) (ncols b) (fun i j =>
         sigma (ncols a) (fun k => entry 0 a i k * entry 0 b k j))).
Proof.
  intros Hab. unfold matmul. now rewrite Hab, Nat.eqb_refl.
Qed.

Lemma nrows_transpose {A : Type} (d : A) (a : ndarray A) :
  nrows (transpose d a) = ncols a.
Proof. unfold transpose. apply nrows_tabulate. Qed.

Lemma ncols_transpose {A : Type} (d : A) (a : ndarray A) :
  ncols (transpose d a) = nrows a.
Proof. reflexivity. Qed.

Lemma entry_transpose {A : Type} (d : A) (a : ndarray A) (i j : nat) :
  (i < ncols a)%nat -> (j < nrows a)%nat ->
  entry d (transpose d a) i j = entry d a j i.
Proof. intros Hi Hj. unfold transpose. now rewrite entry_tabulate. Qed.

(** ** Loss and gradient *)

Section LossGradient.
Variables (self : SVM) (W X Y : ndarray R).
Hypothesis Hw : w self = Some W.
Hypothesis Hinner : ncols X = nrows W.
Hypothesis Hrows : nrows Y = nrows X.
Hypothesis Hcols : ncols Y = ncols W.

Lemma margins_eq :
  margins self X Y = ret (tabulate (nrows X) (ncols W) (spec_margin W X Y)).
Proof.
  unfold margins, get_w. rewrite Hw, bind_ret_l.
  rewrite matmul_eq, bind_ret_l by exact Hinner.
  unfold multiply. rewrite broadcast_same, bind_ret_l.
  - rewrite nrows_tabulate, ncols_tabulate, map_array_tabulate. f_equal.
    apply tabulate_ext. intros i j Hi Hj.
    now rewrite entry_tabulate by assumption.
  - now rewrite nrows_tabulate.
  - now rewrite ncols_tabulate.
Qed.

Lemma compute_loss_eq :
  (1 <= nrows X)%nat ->
  compute_loss self X Y =
  ret (spec_hinge W X Y + C self / 2 * operator_norm W ^ 2).
Proof.
  intros Hn. unfold compute_loss, py_div.
  destruct (Nat.eqb_spec (nrows X) 0) as [E | _]; [lia |].
  rewrite bind_ret_l, margins_eq, bind_ret_l.
  unfold get_w. rewrite Hw, bind_ret_l. unfold linalg_norm_ord2.
  rewrite bind_ret_l.
  rewrite !map_array_tabulate, np_sum_tabulate. reflexivity.
Qed.

Lemma compute_gradient_eq :
  (1 <= nrows X)%nat ->
  compute_gradient self X Y =
  ret (tabulate (ncols X) (ncols W) (spec_gradient (C self) W X Y)).
Proof.
  intros Hn. unfold compute_gradient, py_div.
  rewrite margins_eq, !bind_ret_l.
  unfold get_w. rewrite Hw, bind_ret_l.
  destruct (Nat.eqb_spec (nrows X) 0) as [E | _]; [lia |].
  rewrite !bind_ret_l, !map_array_tabulate.
  unfold multiply.
  rewrite (broadcast_same 0 0 Rmult Y), !bind_ret_l
    by (now rewrite ?nrows_tabulate, ?ncols_tabulate).
  rewrite broadcast_same, !bind_ret_l
    by (now rewrite ?nrows_tabulate, ?ncols_tabulate).
  rewrite ?nrows_tabulate, ?ncols_tabulate, ?Hrows, ?Hcols.
  rewrite matmul_eq, !bind_ret_l
    by (now rewrite ncols_transpose, nrows_tabulate).
  rewrite ?nrows_tabulate, ?ncols_tabulate.
  unfold add. rewrite broadcast_same.
  - unfold scale at 1. rewrite nrows_map_array, nrows_tabulate, nrows_transpose.
    f_equal. apply tabulate_ext. intros f c Hf Hc.
    rewrite !entry_scale, ncols_transpose.
    rewrite entry_tabulate by assumption.
    unfold spec_gradient, spec_active. f_equal.
    replace (-2 / INR (nrows X)) with (- (2 / INR (nrows X)))
      by (unfold Rdiv; ring).
    f_equal. apply sigma_ext. intros i Hi.
    rewrite entry_transpose, !entry_tabulate by assumption.
    reflexivity.
  - unfold scale. now rewrite !nrows_map_array, nrows_tabulate, nrows_transpose.
  - reflexivity.
Qed.

End LossGradient.

(** C2: on a weight matrix of shape [(F, m)], [X] of [n >= 1] rows and
    [F] columns and [Y] of shape [(n, m)], [compute_gradient] returns an
    array of shape [(F, m)] equal, entry by entry, to
    [-(2/n) X^T (Y * max(0, margins) * active) + C W]. *)
Theorem compute_gradient_spec (self : SVM) (W X Y : ndarray R) :
  w self = Some W ->
  ncols X = nrows W ->
  nrows Y = nrows X ->
  ncols Y = ncols W ->
  (1 <= nrows X)%nat ->
  exists g,
    compute_gradient self X Y = ret g
    /\ shape g = (nrows W, ncols W)
    /\ rectangular g
    /\ forall f c, (f < nrows W)%nat -> (c < ncols W)%nat ->
         entry 0 g f c = spec_gradient (C self) W X Y f c.
Proof.
  intros Hw Hinner Hrows Hcols Hn.
  exists (tabulate (ncols X) (ncols W) (spec_gradient (C self) W X Y)).
  split; [now apply compute_gradient_eq |].
  split; [unfold shape; now rewrite nrows_tabulate, ncols_tabulate, Hinner |].
  split; [apply rectangular_tabulate |].
  intros f c Hf Hc. apply entry_tabulate; [now rewrite Hinner | exact Hc].
Qed.

Lemma compute_gradient_spec_witness :
  let W := mk_ndarray 1 [[1]; [0]] in
  let X := mk_ndarray 2 [[1; 2]] in
  let Y := mk_ndarray 1 [[1]] in
  let self := mk_SVM (1 / 10) 2 5 1 false None None (Some W) in
  exists g,
    compute_gradient self X Y = ret g
    /\ shape g = (2%nat, 1%nat)
    /\ rectangular g
    /\ forall f c, (f < 2)%nat -> (c < 1)%nat ->
         entry 0 g f c = spec_gradient 2 W X Y f c.
Proof.
  intros W X Y self.
  apply (compute_gradient_spec self W X Y); reflexivity.
Defined.

(** ** The regularisation term *)

Lemma operator_norm_lub (a : ndarray R) :
  is_lub (stretch a) (operator_norm a).
Proof.
  unfold operator_norm.
  now destruct (completeness (stretch a) (stretch_bound a) (stretch_inhabited a)).
Qed.

Lemma operator_norm_unique (a : ndarray R) (r : R) :
  is_lub (stretch a) r -> operator_norm a = r.
Proof.
  intros [Hub Hleast]. destruct (operator_norm_lub a) as [Hub' Hleast'].
  apply Rle_antisym; [now apply Hleast' | now apply Hleast].
Qed.

Lemma operator_norm_nonneg (a : ndarray R) : 0 <= operator_norm a.
Proof.
  destruct (operator_norm_lub a) as [Hub _].
  destruct (stretch_inhabited a) as [r Hr].
  apply Rle_trans with r; [| now apply Hub].
  destruct Hr as [v [_ ->]]. apply sqrt_pos.
Qed.

Lemma frobenius_sq_nonneg (a : ndarray R) : 0 <= frobenius_sq a.
Proof.
  unfold frobenius_sq. apply sigma_nonneg. intros i _.
  apply sigma_nonneg. intros k _. nra.
Qed.

(** The squared operator norm never exceeds the squared Frobenius norm. *)
Lemma operator_norm_sq_le_frobenius (a : ndarray R) :
  operator_norm a ^ 2 <= frobenius_sq a.
Proof.
  destruct (operator_norm_lub a) as [_ Hleast].
  assert (Hle : operator_norm a <= sqrt (frobenius_sq a)).
  { apply Hleast. intros r [v [Hv ->]]. now apply image_length_bound. }
  pose proof (operator_norm_nonneg a) as H0.
  rewrite <- (pow2_sqrt (frobenius_sq a)) by apply frobenius_sq_nonneg.
  nra.
Qed.

(** A matrix without entries has operator norm 0. *)
Lemma operator_norm_empty (a : ndarray R) :
  nrows a = 0%nat \/ ncols a = 0%nat -> operator_norm a = 0.
Proof.
  intros He.
  assert (Hf : frobenius_sq a = 0).
  { unfold frobenius_sq. destruct He as [-> | ->]; [reflexivity |].
    apply sigma_zero. }
  pose proof (operator_norm_sq_le_frobenius a) as Hle.
  pose proof (operator_norm_nonneg a) as H0.
  rewrite Hf in Hle. nra.
Qed.

Lemma spec_hinge_nonneg (W X Y : ndarray R) : 0 <= spec_hinge W X Y.
Proof.
  unfold spec_hinge. apply Rmult_le_pos.
  - destruct (nrows X) as [|n].
    + simpl. unfold Rdiv. rewrite Rinv_0. lra.
    + apply Rlt_le, Rdiv_lt_0_compat; [lra |]. apply lt_0_INR. lia.
  - apply sigma_nonneg. intros i _. apply sigma_nonneg. intros c _. nra.
Qed.

Lemma Rsum_nonneg (l : list R) : Forall (fun t => 0 <= t) l -> 0 <= Rsum l.
Proof.
  induction 1 as [|t l Ht _ IH]; simpl; lra.
Qed.

Lemma np_sum_squares_nonneg (a : ndarray R) :
  0 <= np_sum (map_array (fun t => t ^ 2) a).
Proof.
  unfold np_sum, map_array; simpl. apply Rsum_nonneg.
  apply Forall_forall. intros r Hr.
  apply in_map_iff in Hr. destruct Hr as [row [<- Hrow]].
  apply in_map_iff in Hrow. destruct Hrow as [row0 [<- _]].
  apply Rsum_nonneg, Forall_forall. intros t Ht.
  apply in_map_iff in Ht. destruct Ht as [t0 [<- _]]. nra.
Qed.

(** C9: with [C >= 0], whatever [compute_loss] returns is not negative;
    and it does return on a weight matrix of shape [(F, m)], [X] of
    [n >= 1] rows and [F] columns and [Y] of shape [(n, m)]. *)
Theorem compute_loss_nonneg (self : SVM) (X Y : ndarray R) :
  0 <= C self ->
  (forall l, compute_loss self X Y = ret l -> 0 <= l)
  /\ (forall W,
        w self = Some W ->
        ncols X = nrows W -> nrows Y = nrows X -> ncols Y = ncols W ->
        (1 <= nrows X)%nat ->
        exists l, compute_loss self X Y = ret l).
Proof.
  intros HC. split.
  - intros l Hl. unfold compute_loss in Hl.
    apply bind_ret in Hl. destruct Hl as [inv_n [Hinv Hl]].
    apply bind_ret in Hl. destruct Hl as [a [_ Hl]].
    apply bind_ret in Hl. destruct Hl as [w0 [_ Hl]].
    apply bind_ret in Hl. destruct Hl as [nrm [_ Hl]].
    injection Hl as <-.
    unfold py_div in Hinv.
    destruct (Nat.eqb_spec (nrows X) 0) as [E | Hne]; [discriminate |].
    injection Hinv as <-.
    assert (Hn : 0 < INR (nrows X)) by (apply lt_0_INR; lia).
    assert (H1 : 0 <= 1 / INR (nrows X))
      by (apply Rlt_le, Rdiv_lt_0_compat; lra).
    pose proof (np_sum_squares_nonneg (map_array (Rmax 0) a)) as H2.
    pose proof (pow2_ge_0 nrm) as H3.
    assert (0 <= C self / 2 * nrm ^ 2) by (apply Rmult_le_pos; lra).
    apply Rplus_le_le_0_compat; [| assumption].
    apply Rmult_le_pos; assumption.
  - intros W Hw Hinner Hrows Hcols Hn.
    eexists. now apply (compute_loss_eq self W).
Qed.

Lemma compute_loss_nonneg_witness :
  exists l,
    compute_loss (mk_SVM (1 / 10) 2 5 1 false None None
                         (Some (mk_ndarray 1 [[1]; [0]])))
                 (mk_ndarray 2 [[1; 2]]) (mk_ndarray 1 [[1]]) = ret l
    /\ 0 <= l.
Proof.
  assert (HC : 0 <= C (mk_SVM (1 / 10) 2 5 1 false None None
                              (Some (mk_ndarray 1 [[1]; [0]]))))
    by (simpl; lra).
  destruct (compute_loss_nonneg
              (mk_SVM (1 / 10) 2 5 1 false None None
                      (Some (mk_ndarray 1 [[1]; [0]])))
              (mk_ndarray 2 [[1; 2]]) (mk_ndarray 1 [[1]]) HC)
    as [Hnonneg Hruns].
  destruct (Hruns (mk_ndarray 1 [[1]; [0]])) as [l Hl];
    try reflexivity; try (unfold nrows; simpl; lia).
  exists l. split; [exact Hl | now apply Hnonneg].
Defined.

(** The identity matrix of order 2 has operator norm 1, and squared
    Frobenius norm 2. *)
Lemma operator_norm_identity :
  operator_norm (mk_ndarray 2 [[1; 0]; [0; 1]]) = 1.
Proof.
  apply operator_norm_unique. split.
  - intros r [v [[Hlen Hball] ->]].
    destruct v as [|a [|b [|c v]]]; simpl in Hlen; try discriminate.
    unfold image_length. simpl in *. unfold entry; simpl.
    apply Rle_trans with (sqrt 1); [| rewrite sqrt_1; lra].
    apply sqrt_le_1_alt. nra.
  - intros b Hb. apply Hb. exists [1; 0]. split.
    + split; [reflexivity | simpl; lra].
    + unfold image_length, entry; simpl.
      symmetry. apply sqrt_lem_1; [nra | lra | ring].
Qed.

(** C1, at weights of rank 2: with [W] the identity of order 2, [C = 2],
    [X = [[0, 0]]] and [Y = [[1, -1]]], [compute_loss] returns
    [8 + (C/2) * 1 = 9], where the formula of the specification, with the
    squared Frobenius norm of [W], gives [8 + (C/2) * 2 = 10]. *)
Theorem compute_loss_spectral_norm :
  let W := mk_ndarray 2 [[1; 0]; [0; 1]] in
  let X := mk_ndarray 2 [[0; 0]] in
  let Y := mk_ndarray 2 [[1; -1]] in
  let self := mk_SVM (1 / 10) 2 5 1 false None None (Some W) in
  compute_loss self X Y = ret 9
  /\ spec_loss (C self) W X Y = 10.
Proof.
  intros W X Y self.
  assert (Hh : spec_hinge W X Y = 8).
  { unfold spec_hinge, spec_margin, entry; simpl.
    replace (2 - (0 + 0 * 1 + 0 * 0) * 1) with 2 by ring.
    replace (2 - (0 + 0 * 0 + 0 * 1) * -1) with 2 by ring.
    rewrite Rmax_right by lra. field. }
  split.
  - rewrite (compute_loss_eq self W X Y) by (reflexivity || (unfold nrows; simpl; lia)).
    unfold W at 2. rewrite operator_norm_identity, Hh. f_equal. simpl. field.
  - unfold spec_loss. rewrite Hh.
    unfold frobenius_sq, entry; simpl. field.
Qed.

(** ** Inference and accuracy *)

Lemma nth_decode {A : Type} `{Gt A} (a : ndarray A) (i : nat) :
  nth i (decode a) 0%nat = argmax (nth i (rows a) []).
Proof.
  unfold decode. change 0%nat with (argmax (@nil A)) at 1. apply map_nth.
Qed.

Lemma gtb_R_false (x y : R) : gtb x y = false <-> x <= y.
Proof.
  unfold gtb, Gt_R. destruct (Rlt_dec y x); split; intros; try lra;
    try discriminate; reflexivity.
Qed.

Lemma gtb_R_true (x y : R) : gtb x y = true <-> y < x.
Proof.
  unfold gtb, Gt_R. destruct (Rlt_dec y x); split; intros; try lra;
    try discriminate; reflexivity.
Qed.

(** What [infer] returns: row [i] is a row of [-1] with a [1] at the
    argmax of row [i] of the scores. *)
Lemma infer_rows (self : SVM) (W X : ndarray R) :
  w self = Some W ->
  ncols X = nrows W ->
  (1 <= ncols W)%nat ->
  let S := tabulate (nrows X) (ncols W) (spec_score W X) in
  exists Yp,
    infer self X = ret Yp
    /\ nrows Yp = nrows X
    /\ ncols Yp = ncols W
    /\ forall i, (i < nrows X)%nat ->
         first_max 0 (map (spec_score W X i) (seq 0 (ncols W)))
                   (nth i (decode S) 0%nat)
         /\ nth i (rows Yp) []
            = list_set (repeat (-1)%Z (ncols W)) (nth i (decode S) 0%nat) 1%Z.
Proof.
  intros Hw Hinner Hm S. unfold infer, get_w.
  rewrite Hw, bind_ret_l, matmul_eq, bind_ret_l by exact Hinner.
  fold (spec_score W X). fold S.
  unfold argmax_axis1. change (ncols S) with (ncols W).
  destruct (Nat.eqb_spec (ncols W) 0) as [E | _]; [lia |].
  rewrite bind_ret_l. fold (decode S).
  assert (Hrow : forall i, (i < nrows X)%nat ->
            nth i (rows S) [] = map (spec_score W X i) (seq 0 (ncols W)))
    by (intros i Hi; now apply row_tabulate).
  assert (Hlen : length (decode S) = nrows X).
  { unfold decode. rewrite length_map. apply (nrows_tabulate (A := R)). }
  assert (Hfm : forall i, (i < nrows X)%nat ->
            first_max 0 (map (spec_score W X i) (seq 0 (ncols W)))
                      (nth i (decode S) 0%nat)).
  { intros i Hi. rewrite nth_decode, <- Hrow by assumption.
    apply argmax_first_max.
    rewrite Hrow by assumption. destruct (ncols W); [lia | discriminate]. }
  assert (Hpred : forall i, (i < nrows X)%nat ->
            (nth i (decode S) 0 < ncols W)%nat).
  { intros i Hi. destruct (Hfm i Hi) as [Hlt _].
    now rewrite length_map, length_seq in Hlt. }
  destruct (make_one_versus_all_labels_rows
              (map Z.of_nat (decode S)) (Z.of_nat (ncols W)))
    as [Yp [Hrun [Hr [Hc Hrows]]]].
  - lia.
  - apply Forall_forall. intros k Hk.
    destruct (In_nth _ _ 0%Z Hk) as [i [Hi <-]].
    rewrite length_map, Hlen in Hi.
    change 0%Z with (Z.of_nat 0). rewrite map_nth.
    specialize (Hpred i Hi). lia.
  - rewrite length_map, Hlen in Hr, Hrows. rewrite Nat2Z.id in Hc, Hrows.
    exists Yp. split; [exact Hrun |].
    split; [exact Hr |]. split; [exact Hc |].
    intros i Hi. split; [now apply Hfm |].
    destruct (Hrows i Hi) as [-> _].
    change 0%Z with (Z.of_nat 0) at 1. rewrite map_nth.
    pose proof (Hpred i Hi) as Hlt.
    unfold label_column.
    replace ((Z.of_nat (nth i (decode S) 0%nat) <? 0)%Z) with false
      by (symmetry; apply Z.ltb_ge; lia).
    now rewrite Nat2Z.id.
Qed.

(** C7: on weights of shape [(F, m)], [m >= 1], and [X] of [F] columns,
    [infer] returns the one-versus-all array of shape [(n, m)] whose row
    [i] encodes the class [c] of the largest score of row [i] of [X W],
    the first such class from the left. *)
Theorem infer_spec (self : SVM) (W X : ndarray R) :
  w self = Some W ->
  ncols X = nrows W ->
  (1 <= ncols W)%nat ->
  exists Yp,
    infer self X = ret Yp
    /\ shape Yp = (nrows X, ncols W)
    /\ rectangular Yp
    /\ forall i, (i < nrows X)%nat ->
       exists c,
         (c < ncols W)%nat
         /\ (forall j, (j < ncols W)%nat -> spec_score W X i j <= spec_score W X i c)
         /\ (forall j, (j < c)%nat -> spec_score W X i j < spec_score W X i c)
         /\ (forall j, (j < ncols W)%nat -> entry 0%Z Yp i j = sign_entry c j).
Proof.
  intros Hw Hinner Hm.
  destruct (infer_rows self W X Hw Hinner Hm) as [Yp [Hrun [Hr [Hc Hrows]]]].
  exists Yp. split; [exact Hrun |].
  split; [unfold shape; now rewrite Hr, Hc |].
  split.
  - apply rectangular_nth. intros i Hi. rewrite Hr in Hi.
    destruct (Hrows i Hi) as [_ ->].
    now rewrite length_list_set, repeat_length.
  - intros i Hi. destruct (Hrows i Hi) as [[Hlt [Hmax Hfirst]] Hrow_i].
    set (c := nth i (decode (tabulate (nrows X) (ncols W) (spec_score W X)))
                  0%nat) in *.
    rewrite length_map, length_seq in Hlt, Hmax.
    assert (Hnth : forall j, (j < ncols W)%nat ->
              nth j (map (spec_score W X i) (seq 0 (ncols W))) 0
              = spec_score W X i j).
    { intros j Hj.
      rewrite (nth_indep _ 0 (spec_score W X i 0%nat))
        by (now rewrite length_map, length_seq).
      now rewrite (map_nth (spec_score W X i)), seq_nth. }
    exists c. split; [exact Hlt |]. split; [| split].
    + intros j Hj. specialize (Hmax j Hj).
      rewrite !Hnth in Hmax by assumption. now apply gtb_R_false.
    + intros j Hj. specialize (Hfirst j Hj).
      rewrite !Hnth in Hfirst by lia. now apply gtb_R_true.
    + intros j Hj. unfold entry. rewrite Hrow_i. now apply nth_sign_row.
Qed.

Lemma infer_spec_witness :
  let W := mk_ndarray 2 [[1; 1]; [0; 3]] in
  let X := mk_ndarray 2 [[1; 0]; [1; 1]] in
  let self := mk_SVM (1 / 10) 2 5 1 false None None (Some W) in
  exists Yp,
    infer self X = ret Yp
    /\ shape Yp = (2%nat, 2%nat)
    /\ rectangular Yp
    /\ forall i, (i < 2)%nat ->
       exists c,
         (c < 2)%nat
         /\ (forall j, (j < 2)%nat -> spec_score W X i j <= spec_score W X i c)
         /\ (forall j, (j < c)%nat -> spec_score W X i j < spec_score W X i c)
         /\ (forall j, (j < 2)%nat -> entry 0%Z Yp i j = sign_entry c j).
Proof.
  intros W X self.
  apply (infer_spec self W X); try reflexivity.
  simpl. lia.
Defined.

Lemma count_true_le (l : list bool) : (count_true l <= length l)%nat.
Proof. unfold count_true. apply filter_length_le. Qed.

Lemma equal_same_length (p t : list nat) :
  length p = length t ->
  equal p t =
  ret (map (fun i => (nth i p 0 =? nth i t 0)%nat) (seq 0 (length t))).
Proof.
  intros Hlen. unfold equal. rewrite Hlen, broadcast_dim_same, bind_ret_l.
  f_equal. apply map_ext_in. intros i Hi. apply in_seq in Hi.
  now rewrite !broadcast_index_lt by lia.
Qed.

Lemma compute_accuracy_eq {A : Type} `{Gt A} (Yp Yt : ndarray A) :
  nrows Yp = nrows Yt ->
  (1 <= nrows Yt)%nat -> (1 <= ncols Yp)%nat -> (1 <= ncols Yt)%nat ->
  compute_accuracy Yp Yt =
  ret (Finite (INR (agreements (nrows Yt) (decode Yp) (decode Yt))
               / INR (nrows Yt))).
Proof.
  intros Hrows Hn Hp Ht. unfold compute_accuracy, argmax_axis1.
  destruct (Nat.eqb_spec (ncols Yt) 0) as [E | _]; [lia |].
  destruct (Nat.eqb_spec (ncols Yp) 0) as [E | _]; [lia |].
  rewrite !bind_ret_l. fold (decode Yp) (decode Yt).
  assert (Hlt : length (decode Yt) = nrows Yt)
    by (unfold decode; apply length_map).
  assert (Hlp : length (decode Yp) = nrows Yt)
    by (unfold decode; rewrite length_map; exact Hrows).
  rewrite equal_same_length, !bind_ret_l by congruence.
  unfold true_divide.
  destruct (Nat.eqb_spec (nrows Yt) 0) as [E | _]; [lia |].
  rewrite Hlt. reflexivity.
Qed.

(** C8: [compute_accuracy] decodes both arrays by the argmax of each row
    and returns the number of rows where the class ids agree divided by the
    number of rows, a number between 0 and 1; on the one-versus-all
    encodings of [[0, 1, 1]] and [[0, 1, 0]] with [m = 2] it returns
    [2/3]. *)
Theorem compute_accuracy_spec :
  (forall (A : Type) (G : Gt A) (Yp Yt : ndarray A),
     nrows Yp = nrows Yt ->
     (1 <= nrows Yt)%nat -> (1 <= ncols Yp)%nat -> (1 <= ncols Yt)%nat ->
     exists r,
       compute_accuracy Yp Yt = ret (Finite r)
       /\ r = INR (agreements (nrows Yt) (decode Yp) (decode Yt))
              / INR (nrows Yt)
       /\ 0 <= r <= 1)
  /\ (Yp <- make_one_versus_all_labels [0; 1; 1]%Z 2 ;;
      Yt <- make_one_versus_all_labels [0; 1; 0]%Z 2 ;;
      compute_accuracy Yp Yt) = ret (Finite (2 / 3)).
Proof.
  split.
  - intros A G Yp Yt Hrows Hn Hp Ht.
    eexists. split; [now apply compute_accuracy_eq |].
    split; [reflexivity |].
    set (good := agreements (nrows Yt) (decode Yp) (decode Yt)).
    assert (Hgood : (good <= nrows Yt)%nat).
    { unfold good, agreements.
      eapply Nat.le_trans; [apply count_true_le |].
      now rewrite length_map, length_seq. }
    assert (Hpos : 0 < INR (nrows Yt)) by (apply lt_0_INR; lia).
    split.
    + apply Rmult_le_pos; [apply pos_INR | apply Rlt_le, Rinv_0_lt_compat, Hpos].
    + apply Rmult_le_reg_r with (INR (nrows Yt)); [exact Hpos |].
      unfold Rdiv. rewrite Rmult_assoc, Rinv_l, Rmult_1_r, Rmult_1_l by lra.
      now apply le_INR.
  - change (make_one_versus_all_labels [0; 1; 1]%Z 2)
      with (ret (mk_ndarray 2 [[1; -1]; [-1; 1]; [-1; 1]]%Z)).
    change (make_one_versus_all_labels [0; 1; 0]%Z 2)
      with (ret (mk_ndarray 2 [[1; -1]; [-1; 1]; [1; -1]]%Z)).
    rewrite !bind_ret_l, compute_accuracy_eq
      by (reflexivity || (unfold nrows; simpl; lia)).
    do 2 f_equal.
    set (Yp := mk_ndarray 2 [[1; -1]; [-1; 1]; [-1; 1]]%Z).
    set (Yt := mk_ndarray 2 [[1; -1]; [-1; 1]; [1; -1]]%Z).
    change (nrows Yt) with 3%nat.
    change (agreements 3 (decode Yp) (decode Yt)) with 2%nat.
    simpl. field.
Qed.

Lemma compute_accuracy_spec_witness :
  exists r,
    compute_accuracy (mk_ndarray 2 [[1; -1]; [-1; 1]]%Z)
                     (mk_ndarray 2 [[1; -1]; [1; -1]]%Z) = ret (Finite r)
    /\ r = INR (agreements 2 (decode (mk_ndarray 2 [[1; -1]; [-1; 1]]%Z))
                           (decode (mk_ndarray 2 [[1; -1]; [1; -1]]%Z)))
           / INR 2
    /\ 0 <= r <= 1.
Proof.
  apply (proj1 compute_accuracy_spec Z Gt_Z
           (mk_ndarray 2 [[1; -1]; [-1; 1]]%Z)
           (mk_ndarray 2 [[1; -1]; [1; -1]]%Z));
    try reflexivity; unfold nrows; simpl; lia.
Defined.

(** ** Training *)

Lemma same_config_refl (s : SVM) : same_config s s.
Proof. repeat split. Qed.

Lemma same_config_trans (s1 s2 s3 : SVM) :
  same_config s1 s2 -> same_config s2 s3 -> same_config s1 s3.
Proof.
  unfold same_config. intros H12 H23.
  repeat match goal with H : _ /\ _ |- _ => destruct H end.
  repeat split; congruence.
Qed.

Lemma same_config_set_w (s : SVM) (a : ndarray R) : same_config s (set_w s a).
Proof. repeat split. Qed.

Lemma isub_w_eq (self : SVM) (W d : ndarray R) :
  w self = Some W -> nrows d = nrows W -> ncols d = ncols W ->
  isub_w self d =
  ret (set_w self (tabulate (nrows W) (ncols W)
                     (fun i j => entry 0 W i j - entry 0 d i j))).
Proof.
  intros Hw Hr Hc. unfold isub_w, get_w, subtract.
  rewrite Hw, bind_ret_l, broadcast_same, bind_ret_l by congruence.
  now rewrite nrows_tabulate, ncols_tabulate, !Nat.eqb_refl.
Qed.

Lemma fit_pass_ok (F k : nat) (batches : list (ndarray R * ndarray Z)) :
  forall self,
  Forall (batch_ok F k) batches ->
  weights_shape F k self ->
  exists self',
    fit_pass self batches = ret self'
    /\ weights_shape F k self' /\ same_config self self'.
Proof.
  induction batches as [|[x y] rest IH]; intros self Hb Hs; simpl.
  - exists self. split; [reflexivity |]. split; [exact Hs |].
    apply same_config_refl.
  - inversion Hb as [|b bs Hhd Hrest]; subst.
    destruct Hhd as [Hxc [Hyc [Hyr Hxr]]].
    simpl in Hxc, Hyc, Hyr, Hxr.
    destruct Hs as [W [Hw [HWr HWc]]].
    rewrite (compute_gradient_eq self W x (astype_float y)), bind_ret_l;
      try assumption; try congruence.
    2: { unfold astype_float. now rewrite nrows_map_array. }
    2: { unfold astype_float; simpl. congruence. }
    rewrite (isub_w_eq self W), bind_ret_l; try assumption.
    2: { unfold scale. rewrite nrows_map_array, nrows_tabulate. congruence. }
    2: { reflexivity. }
    set (self1 := set_w self _).
    destruct (IH self1 Hrest) as [self' [Hrun [Hs' Hcfg]]].
    + eexists. split; [reflexivity |].
      now rewrite nrows_tabulate, ncols_tabulate.
    + exists self'. split; [exact Hrun |]. split; [exact Hs' |].
      eapply same_config_trans; [apply same_config_set_w | exact Hcfg].
Qed.

Lemma minibatch_batches_ok (X : ndarray R) (Y : ndarray Z) (size : Z) :
  (0 < size)%Z ->
  nrows Y = nrows X ->
  exists batches,
    minibatch X Y size = ret batches
    /\ Forall (batch_ok (ncols X) (ncols Y)) batches.
Proof.
  intros Hsize Hrows. eexists. split; [now apply minibatch_chunks |].
  destruct (range_len_chunks (nrows X) size Hsize) as [Hlt _].
  apply Forall_forall. intros b Hb. apply in_map_iff in Hb.
  destruct Hb as [j [<- Hj]]. apply in_seq in Hj.
  assert (Hjs : (j * Z.to_nat size < nrows X)%nat) by (apply Hlt; lia).
  unfold batch_ok; simpl. rewrite !nrows_chunk, Hrows.
  repeat split; lia.
Qed.

Lemma measure_ok (F k : nat) (self : SVM) (x : ndarray R) (y : ndarray Z) :
  weights_shape F k self ->
  (1 <= k)%nat ->
  ncols x = F -> (1 <= nrows x)%nat ->
  nrows y = nrows x -> ncols y = k ->
  exists l a, measure self x y = ret (l, a).
Proof.
  intros [W [Hw [HWr HWc]]] Hk Hxc Hxr Hyr Hyc. unfold measure.
  rewrite (compute_loss_eq self W x (astype_float y)), bind_ret_l;
    try assumption; try congruence; try lia.
  2: { unfold astype_float. now rewrite nrows_map_array. }
  2: { unfold astype_float; simpl. congruence. }
  destruct (infer_rows self W x Hw) as [Yp [Hrun [Hr [Hc _]]]];
    [congruence | lia |].
  rewrite Hrun, bind_ret_l.
  rewrite compute_accuracy_eq, bind_ret_l by (congruence || lia).
  eexists. eexists. reflexivity.
Qed.

Lemma fold_left_max_ge (t : list Z) :
  forall h,
  (h <= fold_left Z.max t h)%Z
  /\ Forall (fun j => j <= fold_left Z.max t h)%Z t.
Proof.
  induction t as [|x t IH]; intros h; simpl.
  - split; [lia | constructor].
  - destruct (IH (Z.max h x)) as [H1 H2]. split; [lia |].
    constructor; [lia | exact H2].
Qed.

Lemma fold_left_max_in (t : list Z) :
  forall h, fold_left Z.max t h = h \/ In (fold_left Z.max t h) t.
Proof.
  induction t as [|x t IH]; intros h; simpl.
  - now left.
  - destruct (IH (Z.max h x)) as [E | Hin].
    + rewrite E. destruct (Z.max_spec h x) as [[_ ->] | [_ ->]]; auto.
    + right. now right.
Qed.

Section FitLoop.
Variables (x_train : ndarray R) (y_train : ndarray Z).
Variables (x_test : ndarray R) (y_test : ndarray Z).
Variables (F k : nat) (size : Z).
Hypothesis Hk : (1 <= k)%nat.
Hypothesis Hsize : (0 < size)%Z.
Hypothesis Htrain : ncols x_train = F /\ (1 <= nrows x_train)%nat
                    /\ nrows y_train = nrows x_train /\ ncols y_train = k.
Hypothesis Htest : ncols x_test = F /\ (1 <= nrows x_test)%nat
                   /\ nrows y_test = nrows x_test /\ ncols y_test = k.

Lemma one_pass_ok (self : SVM) :
  ready F k size self ->
  exists batches self',
    minibatch x_train y_train (batch_size self) = ret batches
    /\ fit_pass self batches = ret self'
    /\ ready F k size self' /\ same_config self self'.
Proof.
  intros [Hs Hb]. destruct Htrain as [Hc [Hn [Hr Hyc]]].
  destruct (minibatch_batches_ok x_train y_train (batch_size self))
    as [batches [Hmb Hok]]; [lia | exact Hr |].
  rewrite Hc, Hyc in Hok.
  destruct (fit_pass_ok F k batches self Hok Hs) as [self' [Hrun [Hs' Hcfg]]].
  exists batches, self'. split; [exact Hmb |]. split; [exact Hrun |].
  split; [| exact Hcfg].
  split; [exact Hs' |].
  destruct Hcfg as [_ [_ [_ [Hbs _]]]]. congruence.
Qed.

Lemma fit_passes_one (self self' : SVM)
    (batches : list (ndarray R * ndarray Z)) :
  minibatch x_train y_train (batch_size self) = ret batches ->
  fit_pass self batches = ret self' ->
  forall j, fit_passes (S j) x_train y_train self
            = fit_passes j x_train y_train self'.
Proof.
  intros Hmb Hrun j. simpl. now rewrite Hmb, bind_ret_l, Hrun, bind_ret_l.
Qed.

(** From a [ready] instance, [n] iterations of the outer loop run to the
    end. *)
Lemma fit_loop_runs (n : nat) :
  forall self h,
  ready F k size self ->
  exists st', fit_loop n x_train y_train x_test y_test (self, h) = ret st'.
Proof.
  induction n as [|n IH]; intros self h Hready.
  - exists (self, h). reflexivity.
  - destruct (one_pass_ok self Hready)
      as [batches [self1 [Hmb [Hrun [Hready1 _]]]]].
    destruct Htrain as [Hc [Hn [Hr Hyc]]].
    destruct Htest as [Hc' [Hn' [Hr' Hyc']]].
    destruct Hready1 as [Hs1 Hb1].
    destruct (measure_ok F k self1 x_train y_train Hs1 Hk Hc Hn Hr Hyc)
      as [l1 [a1 Hm1]].
    destruct (measure_ok F k self1 x_test y_test Hs1 Hk Hc' Hn' Hr' Hyc')
      as [l2 [a2 Hm2]].
    cbn [fit_loop]. unfold fit_epoch at 1.
    rewrite Hmb, bind_ret_l, Hrun, bind_ret_l, Hm1, bind_ret_l,
      Hm2, !bind_ret_l.
    apply IH. split; assumption.
Qed.

End FitLoop.

Lemma array_max_spec (y : list Z) :
  y <> [] ->
  exists mx,
    array_max y = ret mx /\ In mx y /\ Forall (fun j => j <= mx)%Z y.
Proof.
  destruct y as [|h t]; intros Hy; [congruence |].
  exists (fold_left Z.max t h). split; [reflexivity |].
  destruct (fold_left_max_ge t h) as [Hh Ht].
  split.
  - destruct (fold_left_max_in t h) as [-> | Hin]; [now left | now right].
  - constructor; assumption.
Qed.

(** *** The dtype of the labels *)

Lemma dtype_bounds (dt : int_dtype) :
  (dtype_min dt <= 0 < dtype_max dt
   /\ dtype_max dt - dtype_min dt + 1 = 2 ^ dtype_bits dt)%Z.
Proof. destruct dt; vm_compute; repeat split; congruence. Qed.

(** A value of the dtype is what it wraps to. *)
Lemma wrap_dtype_id (dt : int_dtype) (v : Z) :
  (dtype_min dt <= v <= dtype_max dt)%Z -> wrap_dtype dt v = v.
Proof.
  intros Hv. unfold wrap_dtype.
  destruct (dtype_bounds dt) as [_ Hsize].
  rewrite Z.mod_small by lia. lia.
Qed.

(** The encoding returns only for a class count that is not negative and
    labels in [[-m, m)]. *)
Lemma make_one_versus_all_labels_ret (y : list Z) (m : Z) (Y : ndarray Z) :
  make_one_versus_all_labels y m = ret Y ->
  (0 <= m)%Z /\ Forall (fun k => - m <= k < m)%Z y.
Proof.
  unfold make_one_versus_all_labels. intros Hrun.
  destruct (Z.ltb_spec m 0) as [Hneg | Hm]; [discriminate |].
  split; [exact Hm |].
  assert (Hdec : forall k, {(- m <= k < m)%Z} + {~ (- m <= k < m)%Z}).
  { intros k. destruct (Z_le_dec (- m) k); destruct (Z_lt_dec k m);
      [left; lia | right; lia ..]. }
  destruct (Forall_Exists_dec (fun k => - m <= k < m)%Z Hdec y)
    as [Hall | Hex]; [exact Hall | exfalso].
  rewrite one_versus_all_loop_raises in Hrun; [discriminate | |].
  - simpl. rewrite Z2Nat.id by lia.
    apply Exists_exists in Hex. destruct Hex as [k [Hk Hbad]].
    apply Exists_exists. exists k. split; [exact Hk | lia].
  - rewrite nrows_full. simpl. lia.
Qed.

(** Where the labels are values of their dtype and the encoding of the
    training labels returns, [max + 1] has not wrapped. *)
Lemma encoded_max_fits (dt : int_dtype) (y : list Z) (mx : Z) (Y : ndarray Z) :
  in_dtype dt y ->
  array_max y = ret mx ->
  make_one_versus_all_labels y (wrap_dtype dt (mx + 1)) = ret Y ->
  wrap_dtype dt (mx + 1) = (mx + 1)%Z.
Proof.
  intros Hdt Hmax Hrun.
  assert (Hne : y <> []) by (intros ->; discriminate).
  destruct (array_max_spec y Hne) as [mx' [Hmax' [Hin _]]].
  rewrite Hmax in Hmax'. injection Hmax' as <-.
  destruct (make_one_versus_all_labels_ret _ _ _ Hrun) as [Hm Hall].
  rewrite Forall_forall in Hall. specialize (Hall mx Hin). simpl in Hall.
  unfold in_dtype in Hdt. rewrite Forall_forall in Hdt.
  specialize (Hdt mx Hin). simpl in Hdt.
  destruct (dtype_bounds dt) as [Hmin Hsize].
  destruct (Z_le_gt_dec (mx + 1) (dtype_max dt)) as [Hfit | Hover].
  - apply wrap_dtype_id. lia.
  - exfalso. assert (Hmx : mx = dtype_max dt) by lia.
    assert (Hw : wrap_dtype dt (mx + 1) = dtype_min dt).
    { unfold wrap_dtype.
      replace (mx + 1 - dtype_min dt)%Z with (1 * 2 ^ dtype_bits dt)%Z by lia.
      rewrite Z.mod_mul; [lia |]. destruct dt; discriminate. }
    lia.
Qed.

(** Below the largest value of the dtype, [max + 1] does not wrap. *)
Lemma max_succ_fits (dt : int_dtype) (y : list Z) (mx : Z) :
  Forall (fun j => 0 <= j < dtype_max dt)%Z y ->
  array_max y = ret mx ->
  (0 <= mx)%Z /\ wrap_dtype dt (mx + 1) = (mx + 1)%Z.
Proof.
  intros Hy Hmax.
  assert (Hne : y <> []) by (intros ->; discriminate).
  destruct (array_max_spec y Hne) as [mx' [Hmax' [Hin _]]].
  rewrite Hmax in Hmax'. injection Hmax' as <-.
  rewrite Forall_forall in Hy. specialize (Hy mx Hin). simpl in Hy.
  destruct (dtype_bounds dt) as [Hmin _].
  split; [lia |]. apply wrap_dtype_id. lia.
Qed.

(** On the calls of [fit_inputs], [fit] runs to the end. *)
Lemma fit_runs (self : SVM) (x_train : ndarray R) (dt : int_dtype)
    (y_train : list Z) (x_test : ndarray R) (y_test : list Z) :
  fit_inputs self x_train dt y_train x_test y_test ->
  exists st', fit self x_train dt y_train x_test y_test = ret st'.
Proof.
  intros [Hn [Hly [Hy [Hn' [HF' [Hly' [Hy' Hbs]]]]]]].
  destruct (array_max_spec y_train) as [mx [Hmax [Hin Hle]]].
  { intros E. rewrite E in Hly. simpl in Hly. lia. }
  destruct (max_succ_fits dt y_train mx Hy Hmax) as [Hmx Hfit].
  destruct (make_one_versus_all_labels_rows y_train (mx + 1))
    as [Ytr [Htr [Htr_r [Htr_c _]]]]; [lia | |].
  { rewrite Forall_forall in *. intros j Hj.
    specialize (Hy j Hj). specialize (Hle j Hj). simpl in *. lia. }
  destruct (make_one_versus_all_labels_rows y_test (mx + 1))
    as [Yte [Hte [Hte_r [Hte_c _]]]]; [lia | |].
  { rewrite Forall_forall in *. intros j Hj.
    destruct (Hy' j Hj) as [H0 [j' [Hj' Hjj']]].
    specialize (Hle j' Hj'). simpl in *. lia. }
  assert (Hk : (1 <= Z.to_nat (mx + 1))%nat) by lia.
  assert (Htrain : ncols x_train = ncols x_train /\ (1 <= nrows x_train)%nat
                   /\ nrows Ytr = nrows x_train
                   /\ ncols Ytr = Z.to_nat (mx + 1))
    by (repeat split; try assumption; congruence).
  assert (Htest : ncols x_test = ncols x_train /\ (1 <= nrows x_test)%nat
                  /\ nrows Yte = nrows x_test
                  /\ ncols Yte = Z.to_nat (mx + 1))
    by (repeat split; try assumption; congruence).
  assert (Hready : ready (ncols x_train) (Z.to_nat (mx + 1)) (batch_size self)
                         (fit_init self x_train (mx + 1))).
  { split; [| reflexivity].
    exists (zeros (ncols x_train) (Z.to_nat (mx + 1))).
    split; [reflexivity |]. split; [apply nrows_full | reflexivity]. }
  unfold fit. rewrite Hmax, bind_ret_l. cbv zeta.
  rewrite Hfit, Htr, bind_ret_l, Hte, bind_ret_l.
  exact (fit_loop_runs x_train Ytr x_test Yte
           (ncols x_train) (Z.to_nat (mx + 1)) (batch_size self)
           Hk Hbs Htrain Htest (epochs self)
           (fit_init self x_train (mx + 1)) (mk_history [] [] [] []) Hready).
Qed.

(** *** What a call of [fit] that returns has done *)

Lemma get_w_ret (self : SVM) (W : ndarray R) :
  get_w self = ret W -> w self = Some W.
Proof.
  unfold get_w. destruct (w self) as [a |]; intros E; [| discriminate].
  now injection E as ->.
Qed.

Lemma isub_w_inv (self self' : SVM) (d : ndarray R) :
  isub_w self d = ret self' ->
  exists W W',
    w self = Some W /\ self' = set_w self W'
    /\ nrows W' = nrows W /\ ncols W' = ncols W.
Proof.
  unfold isub_w. intros Hrun.
  apply bind_ret in Hrun. destruct Hrun as [W [HW Hrun]].
  apply bind_ret in Hrun. destruct Hrun as [W' [_ Hrun]].
  destruct (Nat.eqb_spec (nrows W') (nrows W)) as [Hr |]; [| discriminate].
  destruct (Nat.eqb_spec (ncols W') (ncols W)) as [Hc |]; [| discriminate].
  simpl in Hrun. injection Hrun as <-.
  exists W, W'. auto using get_w_ret.
Qed.

(** A pass changes the weights only, and not their shape. *)
Lemma fit_pass_inv (batches : list (ndarray R * ndarray Z)) :
  forall self self',
  fit_pass self batches = ret self' ->
  same_config self self'
  /\ forall F k, weights_shape F k self -> weights_shape F k self'.
Proof.
  induction batches as [|[x y] rest IH]; intros self self' Hrun; simpl in Hrun.
  - injection Hrun as <-. split; [apply same_config_refl | auto].
  - apply bind_ret in Hrun. destruct Hrun as [grad [_ Hrun]].
    apply bind_ret in Hrun. destruct Hrun as [self1 [Hsub Hrun]].
    destruct (isub_w_inv _ _ _ Hsub) as [W [W' [HW [-> [Hr Hc]]]]].
    destruct (IH _ _ Hrun) as [Hcfg Hshape].
    split.
    + eapply same_config_trans; [apply same_config_set_w | exact Hcfg].
    + intros F k [W0 [HW0 [Hr0 Hc0]]]. apply Hshape.
      exists W'. split; [reflexivity |].
      assert (W0 = W) by congruence. subst W0. split; congruence.
Qed.

Lemma fit_epoch_inv (x_train : ndarray R) (y_train : ndarray Z)
    (x_test : ndarray R) (y_test : ndarray Z) (self : SVM) (h : history)
    (st' : SVM * history) :
  fit_epoch x_train y_train x_test y_test (self, h) = ret st' ->
  exists batches self1 l1 a1 l2 a2,
    minibatch x_train y_train (batch_size self) = ret batches
    /\ fit_pass self batches = ret self1
    /\ measure self1 x_train y_train = ret (l1, a1)
    /\ measure self1 x_test y_test = ret (l2, a2)
    /\ st' = (self1,
              mk_history (train_losses h ++ [l1]) (train_accs h ++ [a1])
                         (test_losses h ++ [l2]) (test_accs h ++ [a2])).
Proof.
  unfold fit_epoch. intros Hrun.
  apply bind_ret in Hrun. destruct Hrun as [batches [Hmb Hrun]].
  apply bind_ret in Hrun. destruct Hrun as [self1 [Hpass Hrun]].
  apply bind_ret in Hrun. destruct Hrun as [[l1 a1] [Hm1 Hrun]].
  apply bind_ret in Hrun. destruct Hrun as [[l2 a2] [Hm2 Hrun]].
  injection Hrun as <-.
  exists batches, self1, l1, a1, l2, a2. auto.
Qed.

(** [n] iterations of the outer loop that come to an end have appended
    [n] values to each list: the values measured after each pass. *)
Lemma fit_loop_inv (x_train : ndarray R) (y_train : ndarray Z)
    (x_test : ndarray R) (y_test : ndarray Z) (n : nat) :
  forall self h self' h',
  fit_loop n x_train y_train x_test y_test (self, h) = ret (self', h') ->
  exists tl ta tel tea,
    h' = mk_history (train_losses h ++ tl) (train_accs h ++ ta)
                    (test_losses h ++ tel) (test_accs h ++ tea)
    /\ (length tl = n /\ length ta = n /\ length tel = n /\ length tea = n)
    /\ same_config self self'
    /\ (forall F k, weights_shape F k self -> weights_shape F k self')
    /\ fit_passes n x_train y_train self = ret self'
    /\ forall j, (j < n)%nat ->
       exists sj,
         fit_passes (S j) x_train y_train self = ret sj
         /\ measure sj x_train y_train = ret (nth j tl 0, nth j ta NonFinite)
         /\ measure sj x_test y_test = ret (nth j tel 0, nth j tea NonFinite).
Proof.
  induction n as [|n IH]; intros self h self' h' Hrun.
  - simpl in Hrun. injection Hrun as <- <-.
    exists [], [], [], []. rewrite !app_nil_r.
    split; [now destruct h |]. split; [auto |].
    split; [apply same_config_refl |]. split; [auto |].
    split; [reflexivity |]. intros j Hj. lia.
  - cbn [fit_loop] in Hrun.
    apply bind_ret in Hrun. destruct Hrun as [st1 [Hep Hrun]].
    destruct (fit_epoch_inv _ _ _ _ _ _ _ Hep)
      as [batches [self1 [l1 [a1 [l2 [a2 [Hmb [Hpass [Hm1 [Hm2 ->]]]]]]]]]].
    destruct (IH _ _ _ _ Hrun)
      as [tl [ta [tel [tea [-> [[Hl1 [Hl2 [Hl3 Hl4]]]
            [Hcfg [Hshape [Hpasses Hnth]]]]]]]]].
    destruct (fit_pass_inv _ _ _ Hpass) as [Hcfg1 Hshape1].
    exists (l1 :: tl), (a1 :: ta), (l2 :: tel), (a2 :: tea).
    cbn [train_losses train_accs test_losses test_accs].
    split; [now rewrite <- !app_assoc |].
    split; [simpl; auto |].
    split; [eapply same_config_trans; eassumption |].
    split; [auto |].
    split; [now rewrite (fit_passes_one _ _ self self1 batches) |].
    intros [|j] Hj.
    + exists self1. rewrite (fit_passes_one _ _ self self1 batches) by assumption.
      simpl. auto.
    + destruct (Hnth j) as [sj [Hsj [Hmj1 Hmj2]]]; [lia |].
      exists sj. rewrite (fit_passes_one _ _ self self1 batches) by assumption.
      simpl nth. auto.
Qed.

Lemma fit_inv (self : SVM) (x_train : ndarray R) (dt : int_dtype)
    (y_train : list Z) (x_test : ndarray R) (y_test : list Z)
    (self' : SVM) (h : history) :
  fit self x_train dt y_train x_test y_test = ret (self', h) ->
  exists mx Ytr Yte,
    array_max y_train = ret mx
    /\ make_one_versus_all_labels y_train (wrap_dtype dt (mx + 1)) = ret Ytr
    /\ make_one_versus_all_labels y_test (wrap_dtype dt (mx + 1)) = ret Yte
    /\ fit_loop (epochs self) x_train Ytr x_test Yte
         (fit_init self x_train (wrap_dtype dt (mx + 1)),
          mk_history [] [] [] [])
       = ret (self', h).
Proof.
  unfold fit. intros Hrun.
  apply bind_ret in Hrun. destruct Hrun as [mx [Hmax Hrun]].
  apply bind_ret in Hrun. destruct Hrun as [Ytr [Htr Hrun]].
  apply bind_ret in Hrun. destruct Hrun as [Yte [Hte Hrun]].
  exists mx, Ytr, Yte. auto.
Qed.


Lemma toy_inputs : fit_inputs toy_svm toy_x int64 toy_y toy_x toy_y.
Proof.
  unfold fit_inputs, toy_svm, toy_x, toy_y, nrows; simpl.
  repeat split; try lia.
  - repeat constructor; vm_compute; congruence.
  - repeat constructor; try lia; exists 1%Z; simpl; split; auto; lia.
Defined.


(** C10: besides returning the lists, a call of [fit] leaves on the
    instance the feature count, the class count and the trained weights
    (those [niter] passes lead to from zero), the hyperparameters as they
    were; the class count is [max(y_train) + 1] as computed in the dtype
    [dt] of the labels, which is [max(y_train) + 1] itself when the labels
    are values of that dtype; [infer], [compute_loss] and
    [compute_gradient] on that instance read these weights, where an
    instance that was never fitted has none to read.  And [fit] does return
    on the calls of [fit_inputs]. *)
Theorem fit_stores_state (self : SVM) (x_train : ndarray R) (dt : int_dtype)
    (y_train : list Z) (x_test : ndarray R) (y_test : list Z) :
  (forall self' h,
     fit self x_train dt y_train x_test y_test = ret (self', h) ->
     exists mx Ytr W,
       array_max y_train = ret mx
       /\ make_one_versus_all_labels y_train (wrap_dtype dt (mx + 1))
          = ret Ytr
       /\ num_features self' = Some (ncols x_train)
       /\ m self' = Some (wrap_dtype dt (mx + 1))
       /\ (in_dtype dt y_train -> m self' = Some (mx + 1)%Z)
       /\ w self' = Some W
       /\ shape W = (ncols x_train, Z.to_nat (wrap_dtype dt (mx + 1)))
       /\ fit_passes (epochs self) x_train Ytr
            (fit_init self x_train (wrap_dtype dt (mx + 1)))
          = ret self'
       /\ (eta self' = eta self /\ C self' = C self /\ niter self' = niter self
           /\ batch_size self' = batch_size self
           /\ verbose self' = verbose self)
       /\ (forall x,
             infer self' x
             = (y <- matmul x W ;;
                pred <- argmax_axis1 y ;;
                make_one_versus_all_labels (map Z.of_nat pred)
                                           (Z.of_nat (ncols y))))
       /\ (forall x y,
             compute_loss self' x y = compute_loss (set_w self W) x y
             /\ compute_gradient self' x y
                = compute_gradient (set_w self W) x y))
  /\ (fit_inputs self x_train dt y_train x_test y_test ->
      exists self' h,
        fit self x_train dt y_train x_test y_test = ret (self', h))
  /\ (forall e c n b v x y,
        infer (init e c n b v) x = raise AttributeError
        /\ compute_gradient (init e c n b v) x y = raise AttributeError).
Proof.
  split; [| split].
  - intros self' h Hfit.
    destruct (fit_inv _ _ _ _ _ _ _ _ Hfit)
      as [mx [Ytr [Yte [Hmax [Htr [Hte Hloop]]]]]].
    destruct (fit_loop_inv _ _ _ _ _ _ _ _ _ Hloop)
      as [tl [ta [tel [tea [_ [_ [Hcfg [Hshape [Hpasses _]]]]]]]]].
    destruct (Hshape (ncols x_train) (Z.to_nat (wrap_dtype dt (mx + 1))))
      as [W [Hw [Hr Hc]]].
    { exists (zeros (ncols x_train) (Z.to_nat (wrap_dtype dt (mx + 1)))).
      split; [reflexivity |]. split; [apply nrows_full | reflexivity]. }
    destruct Hcfg as [He [HC [Hn [Hb [Hv [Hnf Hm]]]]]]. simpl in *.
    assert (Hmargins : forall x y,
              margins self' x y = margins (set_w self W) x y)
      by (intros x y; unfold margins, get_w; simpl; now rewrite Hw).
    exists mx, Ytr, W.
    do 4 (split; [solve [auto] |]).
    split.
    { intros Hdt. rewrite <- Hm.
      now rewrite (encoded_max_fits dt y_train mx Ytr Hdt Hmax Htr). }
    repeat (split; [solve [auto | unfold shape; congruence] |]).
    split.
    + intros x. unfold infer, get_w. now rewrite Hw.
    + intros x y. unfold compute_loss, compute_gradient.
      rewrite !Hmargins. unfold get_w. simpl. rewrite Hw, <- HC. auto.
  - intros Hin.
    destruct (fit_runs self x_train dt y_train x_test y_test Hin)
      as [[self' h] Hfit].
    exists self', h. exact Hfit.
  - intros e c n b v x y. split; reflexivity.
Qed.

Lemma fit_stores_state_witness :
  exists self' h W,
    fit toy_svm toy_x int64 toy_y toy_x toy_y = ret (self', h)
    /\ num_features self' = Some 3%nat
    /\ m self' = Some 2%Z
    /\ w self' = Some W
    /\ shape W = (3%nat, 2%nat).
Proof.
  destruct (proj1 (proj2 (fit_stores_state toy_svm toy_x int64 toy_y
                            toy_x toy_y))
              toy_inputs) as [self' [h Hfit]].
  destruct (proj1 (fit_stores_state toy_svm toy_x int64 toy_y toy_x toy_y)
              self' h Hfit)
    as [mx [Ytr [W [Hmax [_ [Hnf [Hm [_ [Hw [Hshape _]]]]]]]]]].
  injection Hmax as <-.
  exists self', h, W. auto.
Defined.

(** * Further properties of the methods *)

(** ** Edge cases of the encoding *)

(** A negative class count raises [ValueError]; without labels the result
    is the array of no rows and [m] columns; with no column to write to,
    the first label raises [IndexError]. *)
Theorem make_one_versus_all_labels_edges (y : list Z) (m : Z) :
  ((m < 0)%Z -> make_one_versus_all_labels y m = raise ValueError)
  /\ ((0 <= m)%Z ->
      make_one_versus_all_labels [] m = ret (mk_ndarray (Z.to_nat m) []))
  /\ (y <> [] -> make_one_versus_all_labels y 0 = raise IndexError).
Proof.
  split; [| split].
  - intros Hm. unfold make_one_versus_all_labels.
    now replace ((m <? 0)%Z) with true by (symmetry; apply Z.ltb_lt; lia).
  - intros Hm. unfold make_one_versus_all_labels.
    now replace ((m <? 0)%Z) with false by (symmetry; apply Z.ltb_ge; lia).
  - intros Hy. unfold make_one_versus_all_labels. simpl.
    apply one_versus_all_loop_raises.
    + destruct y as [|j y]; [congruence |]. apply Exists_cons_hd. simpl. lia.
    + rewrite nrows_full. simpl. lia.
Qed.

(** The class ids decoded from an encoding are the columns the labels
    select. *)
Lemma decode_one_versus_all (y : list Z) (m : Z) :
  (0 <= m)%Z ->
  Forall (fun j => - m <= j < m)%Z y ->
  exists Y,
    make_one_versus_all_labels y m = ret Y
    /\ nrows Y = length y
    /\ ncols Y = Z.to_nat m
    /\ forall i, (i < length y)%nat ->
         nth i (decode Y) 0%nat = label_column m (nth i y 0%Z).
Proof.
  intros Hm Hy.
  destruct (make_one_versus_all_labels_rows y m Hm Hy)
    as [Y [Hrun [Hr [Hc Hrows]]]].
  exists Y. repeat (split; [assumption |]).
  intros i Hi. destruct (Hrows i Hi) as [Hrow Hlt].
  rewrite nth_decode, Hrow. now apply argmax_sign_row.
Qed.

Lemma count_true_all (n : nat) (f : nat -> bool) :
  (forall i, (i < n)%nat -> f i = true) ->
  count_true (map f (seq 0 n)) = n.
Proof.
  intros Hf. unfold count_true.
  rewrite (map_ext_in f (fun _ => true))
    by (intros i Hi; apply in_seq in Hi; apply Hf; lia).
  transitivity (length (seq 0 n)); [| apply length_seq].
  induction (seq 0 n) as [|x l IH].
  - reflexivity.
  - simpl. now rewrite IH.
Qed.

(** ** Accuracy *)

(** Encoding two label vectors and taking the accuracy counts the
    positions where the labels are the same. *)
Theorem compute_accuracy_of_labels (p t : list Z) (m : Z) :
  Forall (fun j => 0 <= j < m)%Z p ->
  Forall (fun j => 0 <= j < m)%Z t ->
  length p = length t ->
  (1 <= length t)%nat ->
  (Yp <- make_one_versus_all_labels p m ;;
   Yt <- make_one_versus_all_labels t m ;;
   compute_accuracy Yp Yt)
  = ret (Finite (INR (label_agreements (length t) p t) / INR (length t))).
Proof.
  intros Hp Ht Hlen Hn.
  assert (Hm : (0 < m)%Z).
  { destruct t as [|j t]; simpl in Hn; [lia |].
    inversion Ht; subst. lia. }
  destruct (decode_one_versus_all p m) as [Yp [Hrp [Hnp [Hcp Hdp]]]]; [lia | |].
  { eapply Forall_impl; [| exact Hp]. simpl. intros; lia. }
  destruct (decode_one_versus_all t m) as [Yt [Hrt [Hnt [Hct Hdt]]]]; [lia | |].
  { eapply Forall_impl; [| exact Ht]. simpl. intros; lia. }
  rewrite Hrp, bind_ret_l, Hrt, bind_ret_l.
  rewrite compute_accuracy_eq by lia.
  rewrite Hnt.
  enough (Hag : agreements (length t) (decode Yp) (decode Yt)
                = label_agreements (length t) p t) by now rewrite Hag.
  unfold agreements, label_agreements. f_equal.
  apply map_ext_in. intros i Hi. apply in_seq in Hi.
  rewrite Hdp, Hdt by lia.
  rewrite Forall_forall in Hp, Ht.
  assert (Hpi : (0 <= nth i p 0 < m)%Z) by (apply Hp, nth_In; lia).
  assert (Hti : (0 <= nth i t 0 < m)%Z) by (apply Ht, nth_In; lia).
  unfold label_column.
  replace ((nth i p 0 <? 0)%Z) with false by (symmetry; apply Z.ltb_ge; lia).
  replace ((nth i t 0 <? 0)%Z) with false by (symmetry; apply Z.ltb_ge; lia).
  destruct (Z.eqb_spec (nth i p 0%Z) (nth i t 0%Z)) as [E | E].
  - rewrite E. apply Nat.eqb_refl.
  - apply Nat.eqb_neq. lia.
Qed.

Lemma compute_accuracy_of_labels_witness :
  (Yp <- make_one_versus_all_labels [2; 0; 1; 1]%Z 3 ;;
   Yt <- make_one_versus_all_labels [2; 1; 1; 0]%Z 3 ;;
   compute_accuracy Yp Yt)
  = ret (Finite (INR (label_agreements 4 [2; 0; 1; 1]%Z [2; 1; 1; 0]%Z)
                 / INR 4)).
Proof.
  apply (compute_accuracy_of_labels [2; 0; 1; 1]%Z [2; 1; 1; 0]%Z 3).
  - repeat constructor; lia.
  - repeat constructor; lia.
  - reflexivity.
  - simpl; lia.
Defined.

(** The accuracy of an array against itself is 1. *)
Theorem compute_accuracy_self {A : Type} `{Gt A} (Y : ndarray A) :
  (1 <= nrows Y)%nat -> (1 <= ncols Y)%nat ->
  compute_accuracy Y Y = ret (Finite 1).
Proof.
  intros Hn Hc. rewrite compute_accuracy_eq by lia.
  do 2 f_equal. unfold agreements.
  rewrite count_true_all by (intros i _; apply Nat.eqb_refl).
  apply Rinv_r. apply not_0_INR. lia.
Qed.

Lemma compute_accuracy_self_witness :
  compute_accuracy (mk_ndarray 2 [[1; 3]; [5; 2]]) (mk_ndarray 2 [[1; 3]; [5; 2]])
  = ret (Finite 1).
Proof.
  apply (compute_accuracy_self (mk_ndarray 2 [[1; 3]; [5; 2]]));
    unfold nrows; simpl; lia.
Defined.

(** What [compute_accuracy] does outside arrays of equal, non-zero row
    counts: an array without columns raises [ValueError]; without true
    rows the division by the length 0 gives a non-finite float and no
    exception, unless the predictions have two rows or more, which
    [==] refuses; row counts that differ, neither of them 1, raise
    [ValueError]. *)
Theorem compute_accuracy_edges {A : Type} `{Gt A} (Yp Yt : ndarray A) :
  (ncols Yt = 0%nat \/ ncols Yp = 0%nat ->
   compute_accuracy Yp Yt = raise ValueError)
  /\ ((1 <= ncols Yp)%nat -> (1 <= ncols Yt)%nat -> nrows Yt = 0%nat ->
      compute_accuracy Yp Yt
      = if (nrows Yp <=? 1)%nat then ret NonFinite else raise ValueError)
  /\ ((1 <= ncols Yp)%nat -> (1 <= ncols Yt)%nat ->
      nrows Yp <> nrows Yt -> nrows Yp <> 1%nat -> nrows Yt <> 1%nat ->
      compute_accuracy Yp Yt = raise ValueError).
Proof.
  assert (Hlen : forall a : ndarray A, length (map argmax (rows a)) = nrows a)
    by (intros a; apply length_map).
  split; [| split].
  - intros [E | E]; unfold compute_accuracy, argmax_axis1.
    + now rewrite E.
    + rewrite E. destruct (ncols Yt =? 0)%nat; reflexivity.
  - intros Hp Ht Hn. unfold compute_accuracy, argmax_axis1.
    destruct (Nat.eqb_spec (ncols Yt) 0) as [E | _]; [lia |].
    destruct (Nat.eqb_spec (ncols Yp) 0) as [E | _]; [lia |].
    rewrite !bind_ret_l. unfold equal, broadcast_dim.
    rewrite !Hlen, Hn.
    destruct (nrows Yp) as [|[|k]]; reflexivity.
  - intros Hp Ht Hne Hp1 Ht1. unfold compute_accuracy, argmax_axis1.
    destruct (Nat.eqb_spec (ncols Yt) 0) as [E | _]; [lia |].
    destruct (Nat.eqb_spec (ncols Yp) 0) as [E | _]; [lia |].
    rewrite !bind_ret_l. unfold equal, broadcast_dim.
    rewrite !Hlen.
    destruct (Nat.eqb_spec (nrows Yp) (nrows Yt)) as [E | _]; [lia |].
    destruct (Nat.eqb_spec (nrows Yp) 1) as [E | _]; [lia |].
    destruct (Nat.eqb_spec (nrows Yt) 1) as [E | _]; [lia |].
    reflexivity.
Qed.

(** ** Loss and gradient at particular weights *)

Lemma entry_zeros (n k i j : nat) : entry 0 (zeros n k) i j = 0.
Proof.
  unfold entry, zeros, full; cbn [rows].
  destruct (Nat.lt_ge_cases i n) as [Hi | Hi].
  - rewrite (nth_indep _ [] (repeat 0 k)) by (now rewrite repeat_length).
    rewrite nth_repeat. apply nth_repeat.
  - rewrite (nth_overflow (repeat (repeat 0 k) n) [])
      by (now rewrite repeat_length).
    now destruct j.
Qed.

Lemma sigma_const (n : nat) (c : R) : sigma n (fun _ => c) = INR n * c.
Proof.
  induction n as [|n IH].
  - simpl. ring.
  - cbn [sigma]. rewrite IH, S_INR. ring.
Qed.

Lemma sigma_scal_l (n : nat) (c : R) (f : nat -> R) :
  sigma n (fun i => c * f i) = c * sigma n f.
Proof.
  induction n as [|n IH]; cbn [sigma].
  - ring.
  - rewrite IH. ring.
Qed.

Lemma operator_norm_zeros (n k : nat) : operator_norm (zeros n k) = 0.
Proof.
  assert (Himg : forall v, image_length (zeros n k) v = 0).
  { intros v. unfold image_length.
    rewrite (sigma_ext _ _ (fun _ => 0)).
    - rewrite sigma_zero. apply sqrt_0.
    - intros i _. rewrite (sigma_ext _ _ (fun _ => 0)).
      + rewrite sigma_zero. ring.
      + intros j _. rewrite entry_zeros. ring. }
  apply operator_norm_unique. split.
  - intros r [v [_ ->]]. rewrite Himg. lra.
  - intros b Hb. apply Hb. destruct (stretch_inhabited (zeros n k)) as [r Hr].
    destruct Hr as [v [Hv Hr]]. exists v. split; [exact Hv |].
    now rewrite Himg.
Qed.

Lemma spec_margin_zeros (F k : nat) (X Y : ndarray R) (i c : nat) :
  spec_margin (zeros F k) X Y i c = 2.
Proof.
  unfold spec_margin. rewrite (sigma_ext _ _ (fun _ => 0)).
  - rewrite sigma_zero. ring.
  - intros j _. rewrite entry_zeros. ring.
Qed.

(** With all weights zero the loss is [4 m], whatever the data: every
    margin is 2, and the norm of the weights is 0. *)
Theorem compute_loss_zero_weights (self : SVM) (F k : nat) (X Y : ndarray R) :
  w self = Some (zeros F k) ->
  ncols X = F -> (1 <= nrows X)%nat ->
  nrows Y = nrows X -> ncols Y = k ->
  compute_loss self X Y = ret (4 * INR k).
Proof.
  intros Hw Hc Hn Hyr Hyc.
  rewrite (compute_loss_eq self (zeros F k) X Y);
    try assumption;
    try (unfold zeros; rewrite ?nrows_full; simpl; congruence || lia).
  f_equal. rewrite operator_norm_zeros. unfold spec_hinge.
  rewrite (sigma_ext _ _ (fun _ => INR k * 4)).
  - rewrite sigma_const. change (ncols (zeros F k)) with k.
    assert (Hpos : INR (nrows X) <> 0) by (apply not_0_INR; lia).
    field. exact Hpos.
  - intros i _. change (ncols (zeros F k)) with k.
    rewrite (sigma_ext _ _ (fun _ => 4)); [apply sigma_const |].
    intros c _. rewrite spec_margin_zeros, Rmax_right by lra. ring.
Qed.

Lemma compute_loss_zero_weights_witness :
  compute_loss (set_w toy_svm (zeros 3 2)) toy_x
               (mk_ndarray 2 [[1; -1]; [-1; 1]; [1; -1]; [-1; 1]])
  = ret (4 * INR 2).
Proof.
  apply (compute_loss_zero_weights (set_w toy_svm (zeros 3 2)) 3 2 toy_x
           (mk_ndarray 2 [[1; -1]; [-1; 1]; [1; -1]; [-1; 1]]));
    try reflexivity; unfold nrows; simpl; lia.
Defined.

(** With all weights zero the gradient is [-(4/n) X^T Y]. *)
Theorem compute_gradient_zero_weights (self : SVM) (F k : nat)
    (X Y : ndarray R) :
  w self = Some (zeros F k) ->
  ncols X = F -> (1 <= nrows X)%nat ->
  nrows Y = nrows X -> ncols Y = k ->
  exists g,
    compute_gradient self X Y = ret g
    /\ shape g = (F, k)
    /\ forall f c, (f < F)%nat -> (c < k)%nat ->
         entry 0 g f c
         = - (4 / INR (nrows X))
           * sigma (nrows X) (fun i => entry 0 X i f * entry 0 Y i c).
Proof.
  intros Hw Hc Hn Hyr Hyc.
  exists (tabulate (ncols X) (ncols (zeros F k))
            (spec_gradient (C self) (zeros F k) X Y)).
  split.
  { apply compute_gradient_eq; try assumption.
    unfold zeros. now rewrite nrows_full. }
  split.
  { unfold shape. rewrite nrows_tabulate, ncols_tabulate. now rewrite Hc. }
  intros f c Hf Hck. rewrite entry_tabulate by (simpl; lia).
  unfold spec_gradient, spec_active. rewrite entry_zeros.
  rewrite (sigma_ext _ _ (fun i => 2 * (entry 0 X i f * entry 0 Y i c))).
  - rewrite sigma_scal_l. unfold Rdiv. ring.
  - intros i _. rewrite spec_margin_zeros, Rmax_right by lra.
    destruct (Rlt_dec 0 2) as [_ | Hn2]; [ring | lra].
Qed.

Lemma compute_gradient_zero_weights_witness :
  exists g,
    compute_gradient (set_w toy_svm (zeros 3 2)) toy_x
      (mk_ndarray 2 [[1; -1]; [-1; 1]; [1; -1]; [-1; 1]]) = ret g
    /\ shape g = (3%nat, 2%nat)
    /\ forall f c, (f < 3)%nat -> (c < 2)%nat ->
         entry 0 g f c
         = - (4 / INR 4)
           * sigma 4 (fun i =>
               entry 0 toy_x i f
               * entry 0 (mk_ndarray 2 [[1; -1]; [-1; 1]; [1; -1]; [-1; 1]])
                         i c).
Proof.
  apply (compute_gradient_zero_weights (set_w toy_svm (zeros 3 2)) 3 2 toy_x
           (mk_ndarray 2 [[1; -1]; [-1; 1]; [1; -1]; [-1; 1]]));
    try reflexivity; unfold nrows; simpl; lia.
Defined.

(** When no margin is violated (every score times its sign is at least 2)
    the hinge term vanishes: the loss is the regularisation term alone and
    the gradient is [C W]. *)
Theorem no_violation_loss_gradient (self : SVM) (W X Y : ndarray R) :
  w self = Some W ->
  ncols X = nrows W -> nrows Y = nrows X -> ncols Y = ncols W ->
  (1 <= nrows X)%nat ->
  (forall i c, (i < nrows X)%nat -> (c < ncols W)%nat ->
     2 <= spec_score W X i c * entry 0 Y i c) ->
  compute_loss self X Y = ret (C self / 2 * operator_norm W ^ 2)
  /\ exists g,
       compute_gradient self X Y = ret g
       /\ shape g = (nrows W, ncols W)
       /\ forall f c, (f < nrows W)%nat -> (c < ncols W)%nat ->
            entry 0 g f c = C self * entry 0 W f c.
Proof.
  intros Hw Hinner Hrows Hcols Hn Hok.
  assert (Hmargin : forall i c, (i < nrows X)%nat -> (c < ncols W)%nat ->
            Rmax 0 (spec_margin W X Y i c) = 0).
  { intros i c Hi Hc. specialize (Hok i c Hi Hc).
    unfold spec_score in Hok. unfold spec_margin.
    apply Rmax_left. lra. }
  split.
  - rewrite (compute_loss_eq self W X Y) by assumption. f_equal.
    unfold spec_hinge. rewrite (sigma_ext _ _ (fun _ => 0)).
    + rewrite sigma_zero. ring.
    + intros i Hi. rewrite (sigma_ext _ _ (fun _ => 0)); [apply sigma_zero |].
      intros c Hc. rewrite Hmargin by assumption. ring.
  - exists (tabulate (ncols X) (ncols W) (spec_gradient (C self) W X Y)).
    split; [now apply compute_gradient_eq |].
    split; [unfold shape; now rewrite nrows_tabulate, ncols_tabulate, Hinner |].
    intros f c Hfr Hc. rewrite entry_tabulate by (assumption || lia).
    unfold spec_gradient. rewrite (sigma_ext _ _ (fun _ => 0)).
    + rewrite sigma_zero. ring.
    + intros i Hi. rewrite Hmargin by assumption. ring.
Qed.

Lemma no_violation_loss_gradient_witness :
  let W := mk_ndarray 1 [[2]; [0]] in
  let X := mk_ndarray 2 [[1; 5]; [-1; 3]] in
  let Y := mk_ndarray 1 [[1]; [-1]] in
  let self := mk_SVM (1 / 10) 3 5 1 false None None (Some W) in
  compute_loss self X Y = ret (3 / 2 * operator_norm W ^ 2)
  /\ exists g,
       compute_gradient self X Y = ret g
       /\ shape g = (2%nat, 1%nat)
       /\ forall f c, (f < 2)%nat -> (c < 1)%nat ->
            entry 0 g f c = 3 * entry 0 W f c.
Proof.
  intros W X Y self.
  apply (no_violation_loss_gradient self W X Y);
    try reflexivity; try (unfold nrows; simpl; lia).
  intros i c Hi Hc. unfold nrows in Hi. simpl in Hi, Hc.
  assert (c = 0%nat) as -> by lia.
  destruct i as [|[|i]]; [| | lia];
    unfold spec_score, entry; simpl; lra.
Defined.

(** The operator norm of a matrix with a single column is its Frobenius
    norm. *)
Lemma operator_norm_one_column (a : ndarray R) :
  ncols a = 1%nat -> operator_norm a ^ 2 = frobenius_sq a.
Proof.
  intros Hc.
  assert (Himg : image_length a [1] = sqrt (frobenius_sq a)).
  { unfold image_length, frobenius_sq. f_equal. apply sigma_ext. intros i _.
    rewrite Hc. simpl. ring. }
  assert (Hnorm : operator_norm a = sqrt (frobenius_sq a)).
  { apply operator_norm_unique. split.
    - intros r [v [Hv ->]]. now apply image_length_bound.
    - intros b Hb. apply Hb. exists [1]. split; [| now rewrite Himg].
      rewrite Hc. split; [reflexivity | simpl; lra]. }
  rewrite Hnorm. apply pow2_sqrt, frobenius_sq_nonneg.
Qed.

(** With [C >= 0] the loss [compute_loss] returns never exceeds the sum of
    the hinge term and [C/2] times the squared Frobenius norm of the
    weights, and it is that sum when there is a single class. *)
Theorem compute_loss_le_frobenius (self : SVM) (W X Y : ndarray R) :
  w self = Some W ->
  ncols X = nrows W -> nrows Y = nrows X -> ncols Y = ncols W ->
  (1 <= nrows X)%nat ->
  0 <= C self ->
  exists l,
    compute_loss self X Y = ret l
    /\ l <= spec_loss (C self) W X Y
    /\ (ncols W = 1%nat -> l = spec_loss (C self) W X Y).
Proof.
  intros Hw Hinner Hrows Hcols Hn HC.
  eexists. split; [now apply (compute_loss_eq self W) |].
  unfold spec_loss. split.
  - pose proof (operator_norm_sq_le_frobenius W) as Hle.
    apply Rplus_le_compat_l, Rmult_le_compat_l; [lra | exact Hle].
  - intros H1. now rewrite operator_norm_one_column.
Qed.

Lemma compute_loss_le_frobenius_witness :
  let W := mk_ndarray 1 [[1]; [3]] in
  let X := mk_ndarray 2 [[1; 2]] in
  let Y := mk_ndarray 1 [[1]] in
  let self := mk_SVM (1 / 10) 2 5 1 false None None (Some W) in
  exists l,
    compute_loss self X Y = ret l
    /\ l <= spec_loss 2 W X Y
    /\ (1%nat = 1%nat -> l = spec_loss 2 W X Y).
Proof.
  intros W X Y self.
  apply (compute_loss_le_frobenius self W X Y);
    try reflexivity; try (unfold nrows; simpl; lia).
  simpl; lra.
Defined.

(** ** Errors of the loss, the gradient and the inference *)

(** A batch without rows: both methods divide by the row count.
    [compute_loss] does so before anything else, on any instance;
    [compute_gradient] has computed the margins by then. *)
Theorem empty_batch_raises (self : SVM) (W X Y : ndarray R) :
  nrows X = 0%nat ->
  compute_loss self X Y = raise ZeroDivisionError
  /\ (w self = Some W -> ncols X = nrows W ->
      nrows Y = 0%nat -> ncols Y = ncols W ->
      compute_gradient self X Y = raise ZeroDivisionError).
Proof.
  intros Hn. split.
  - unfold compute_loss, py_div. now rewrite Hn.
  - intros Hw Hinner Hrows Hcols. unfold compute_gradient.
    rewrite (margins_eq self W X Y), !bind_ret_l by congruence.
    unfold get_w. rewrite Hw, bind_ret_l. unfold py_div. now rewrite Hn.
Qed.

Lemma empty_batch_raises_witness :
  let W := mk_ndarray 1 [[1]; [0]] in
  let self := mk_SVM (1 / 10) 2 5 1 false None None (Some W) in
  compute_loss self (mk_ndarray 2 []) (mk_ndarray 1 [])
  = raise ZeroDivisionError
  /\ compute_gradient self (mk_ndarray 2 []) (mk_ndarray 1 [])
     = raise ZeroDivisionError.
Proof.
  intros W self.
  destruct (empty_batch_raises self W (mk_ndarray 2 []) (mk_ndarray 1 []))
    as [Hloss Hgrad]; [reflexivity |].
  split; [exact Hloss | now apply Hgrad].
Defined.

(** Features that do not match the weights: the matrix product raises
    [ValueError] in all three methods ([compute_loss] gets that far when it
    has a row to divide by). *)
Theorem feature_mismatch_raises (self : SVM) (W X Y : ndarray R) :
  w self = Some W ->
  ncols X <> nrows W ->
  infer self X = raise ValueError
  /\ compute_gradient self X Y = raise ValueError
  /\ ((1 <= nrows X)%nat -> compute_loss self X Y = raise ValueError).
Proof.
  intros Hw Hne.
  assert (Hmm : matmul X W = raise ValueError).
  { unfold matmul. destruct (Nat.eqb_spec (ncols X) (nrows W)); [lia |].
    reflexivity. }
  assert (Hmargins : margins self X Y = raise ValueError).
  { unfold margins, get_w. now rewrite Hw, bind_ret_l, Hmm. }
  split; [| split].
  - unfold infer, get_w. now rewrite Hw, bind_ret_l, Hmm.
  - unfold compute_gradient. now rewrite Hmargins.
  - intros Hn. unfold compute_loss, py_div.
    destruct (Nat.eqb_spec (nrows X) 0) as [E | _]; [lia |].
    now rewrite bind_ret_l, Hmargins.
Qed.

Lemma feature_mismatch_raises_witness :
  let W := mk_ndarray 1 [[1]; [0]] in
  let X := mk_ndarray 3 [[1; 2; 3]] in
  let Y := mk_ndarray 1 [[1]] in
  let self := mk_SVM (1 / 10) 2 5 1 false None None (Some W) in
  infer self X = raise ValueError
  /\ compute_gradient self X Y = raise ValueError
  /\ compute_loss self X Y = raise ValueError.
Proof.
  intros W X Y self.
  destruct (feature_mismatch_raises self W X Y) as [H1 [H2 H3]].
  - reflexivity.
  - simpl. unfold nrows; simpl. lia.
  - split; [exact H1 |]. split; [exact H2 |].
    apply H3. unfold nrows; simpl. lia.
Defined.

(** ** Mini-batches at the edges *)

(** A batch size of zero raises [ValueError]; a negative one, or an
    iterable without rows, yields no batch at all. *)
Theorem minibatch_degenerate {A B : Type} (X : ndarray A) (Y : ndarray B)
    (size : Z) :
  minibatch X Y 0 = raise ValueError
  /\ ((size < 0)%Z -> minibatch X Y size = ret [])
  /\ (size <> 0%Z -> nrows X = 0%nat -> minibatch X Y size = ret []).
Proof.
  split; [reflexivity |]. split.
  - intros Hs. unfold minibatch, py_range, range_len.
    replace ((size =? 0)%Z) with false by (symmetry; apply Z.eqb_neq; lia).
    replace ((0 <? size)%Z) with false by (symmetry; apply Z.ltb_ge; lia).
    replace ((Z.of_nat (len X) <? 0)%Z) with false
      by (symmetry; apply Z.ltb_ge; lia).
    reflexivity.
  - intros Hs Hn. unfold minibatch, py_range, range_len.
    replace ((size =? 0)%Z) with false by (symmetry; apply Z.eqb_neq; lia).
    change (len X) with (nrows X). rewrite Hn. simpl.
    destruct (0 <? size)%Z; reflexivity.
Qed.

(** The number of batches is the ceiling of [n / size]. *)
Theorem minibatch_count {A B : Type} (X : ndarray A) (Y : ndarray B)
    (size : Z) :
  (0 < size)%Z ->
  exists chunks,
    minibatch X Y size = ret chunks
    /\ Z.of_nat (length chunks) = ((Z.of_nat (nrows X) + size - 1) / size)%Z.
Proof.
  intros Hs. unfold minibatch, py_range.
  replace ((size =? 0)%Z) with false by (symmetry; apply Z.eqb_neq; lia).
  rewrite bind_ret_l. eexists. split; [reflexivity |].
  rewrite !length_map, length_seq. change (len X) with (nrows X).
  unfold range_len.
  replace ((0 <? size)%Z) with true by (symmetry; apply Z.ltb_lt; lia).
  destruct (Z.ltb_spec 0 (Z.of_nat (nrows X))) as [Hn | Hn].
  - rewrite Z2Nat.id
      by (assert (0 <= (Z.of_nat (nrows X) - 0 - 1) / size)%Z
            by (apply Z.div_pos; lia); lia).
    replace (Z.of_nat (nrows X) + size - 1)%Z
      with (Z.of_nat (nrows X) - 0 - 1 + 1 * size)%Z by ring.
    rewrite Z.div_add by lia. reflexivity.
  - assert (Z.of_nat (nrows X) = 0)%Z as -> by lia.
    simpl. symmetry. apply Z.div_small. lia.
Qed.

Lemma minibatch_count_witness :
  exists chunks,
    minibatch (mk_ndarray 1 [[1%Z]; [2%Z]; [3%Z]; [4%Z]; [5%Z]])
              (mk_ndarray 1 [[true]; [false]; [true]; [true]; [false]]) 2
    = ret chunks
    /\ Z.of_nat (length chunks) = ((5 + 2 - 1) / 2)%Z.
Proof.
  apply (minibatch_count
           (mk_ndarray 1 [[1%Z]; [2%Z]; [3%Z]; [4%Z]; [5%Z]])
           (mk_ndarray 1 [[true]; [false]; [true]; [true]; [false]]) 2).
  lia.
Defined.

(** A batch size of at least the number of rows gives a single batch, the
    whole of [X] and [Y]. *)
Theorem minibatch_single {A B : Type} (X : ndarray A) (Y : ndarray B)
    (size : Z) :
  (1 <= nrows X)%nat ->
  (Z.of_nat (nrows X) <= size)%Z ->
  nrows Y = nrows X ->
  minibatch X Y size = ret [(X, Y)].
Proof.
  intros Hn Hs Hrows. rewrite minibatch_chunks by (assumption || lia).
  assert (Hq : range_len 0 (Z.of_nat (nrows X)) size = 1%nat).
  { unfold range_len.
    replace ((0 <? size)%Z) with true by (symmetry; apply Z.ltb_lt; lia).
    replace ((0 <? Z.of_nat (nrows X))%Z) with true
      by (symmetry; apply Z.ltb_lt; lia).
    rewrite Z.div_small by lia. reflexivity. }
  rewrite Hq. simpl. unfold chunk. simpl.
  rewrite !firstn_all2 by (fold (nrows X) (nrows Y); lia).
  now destruct X, Y.
Qed.

Lemma minibatch_single_witness :
  minibatch (mk_ndarray 1 [[1%Z]; [2%Z]; [3%Z]])
            (mk_ndarray 1 [[true]; [false]; [true]]) 5
  = ret [(mk_ndarray 1 [[1%Z]; [2%Z]; [3%Z]],
          mk_ndarray 1 [[true]; [false]; [true]])].
Proof.
  apply (minibatch_single (mk_ndarray 1 [[1%Z]; [2%Z]; [3%Z]])
           (mk_ndarray 1 [[true]; [false]; [true]]) 5);
    unfold nrows; simpl; lia.
Defined.

(** ** Inference before any learning *)

(** With all weights zero every score ties, and the tie goes to the first
    class: every row is predicted as class 0. *)
Theorem infer_zero_weights (self : SVM) (F k : nat) (X : ndarray R) :
  w self = Some (zeros F k) ->
  (1 <= k)%nat ->
  ncols X = F ->
  exists Yp,
    infer self X = ret Yp
    /\ shape Yp = (nrows X, k)
    /\ forall i j, (i < nrows X)%nat -> (j < k)%nat ->
         entry 0%Z Yp i j = sign_entry 0 j.
Proof.
  intros Hw Hk Hc.
  destruct (infer_rows self (zeros F k) X Hw) as [Yp [Hrun [Hr [Hcols Hrows]]]].
  { unfold zeros. now rewrite nrows_full. }
  { exact Hk. }
  change (ncols (zeros F k)) with k in *.
  exists Yp. split; [exact Hrun |].
  split; [unfold shape; now rewrite Hr, Hcols |].
  intros i j Hi Hj. destruct (Hrows i Hi) as [Hfm Hrow].
  assert (Hzero : forall c, spec_score (zeros F k) X i c = 0).
  { intros c. unfold spec_score. rewrite (sigma_ext _ _ (fun _ => 0)).
    - apply sigma_zero.
    - intros f _. rewrite entry_zeros. ring. }
  assert (Hfirst : first_max 0 (map (spec_score (zeros F k) X i) (seq 0 k)) 0).
  { unfold first_max. rewrite length_map, length_seq.
    split; [lia |]. split; [| intros c Hc0; lia].
    intros c Hck.
    rewrite !(nth_indep _ 0 (spec_score (zeros F k) X i 0%nat))
      by (rewrite length_map, length_seq; lia).
    rewrite !(map_nth (spec_score (zeros F k) X i)), !Hzero.
    apply gtb_R_false. lra. }
  rewrite (first_max_unique 0 _ _ _ Hfm Hfirst) in Hrow.
  unfold entry. rewrite Hrow. apply nth_sign_row; lia.
Qed.

Lemma infer_zero_weights_witness :
  exists Yp,
    infer (set_w toy_svm (zeros 3 2)) toy_x = ret Yp
    /\ shape Yp = (4%nat, 2%nat)
    /\ forall i j, (i < 4)%nat -> (j < 2)%nat ->
         entry 0%Z Yp i j = sign_entry 0 j.
Proof.
  apply (infer_zero_weights (set_w toy_svm (zeros 3 2)) 3 2 toy_x);
    try reflexivity. lia.
Defined.

(** ** Training: the update rule and the edges of [fit] *)

(** One mini-batch step subtracts [eta] times the gradient from the
    weights, entry by entry, and keeps their shape. *)
Theorem gradient_step (self : SVM) (W x : ndarray R) (y : ndarray Z) :
  w self = Some W ->
  ncols x = nrows W -> nrows y = nrows x -> ncols y = ncols W ->
  (1 <= nrows x)%nat ->
  exists W',
    fit_pass self [(x, y)] = ret (set_w self W')
    /\ shape W' = shape W
    /\ forall f c, (f < nrows W)%nat -> (c < ncols W)%nat ->
         entry 0 W' f c
         = entry 0 W f c
           - eta self * spec_gradient (C self) W x (astype_float y) f c.
Proof.
  intros Hw Hinner Hrows Hcols Hn. cbn [fit_pass].
  rewrite (compute_gradient_eq self W x (astype_float y)), bind_ret_l;
    try assumption.
  2: { unfold astype_float. now rewrite nrows_map_array. }
  rewrite (isub_w_eq self W), !bind_ret_l; try assumption.
  2: { unfold scale. rewrite nrows_map_array, nrows_tabulate. congruence. }
  2: { reflexivity. }
  eexists. split; [reflexivity |].
  split; [unfold shape; now rewrite nrows_tabulate, ncols_tabulate |].
  intros f c Hf Hc.
  rewrite entry_tabulate, entry_scale, entry_tabulate by (assumption || lia).
  reflexivity.
Qed.

Lemma gradient_step_witness :
  let W := mk_ndarray 1 [[1]; [0]] in
  let x := mk_ndarray 2 [[1; 2]] in
  let y := mk_ndarray 1 [[1%Z]] in
  let self := mk_SVM (1 / 10) 2 5 1 false None None (Some W) in
  exists W',
    fit_pass self [(x, y)] = ret (set_w self W')
    /\ shape W' = (2%nat, 1%nat)
    /\ forall f c, (f < 2)%nat -> (c < 1)%nat ->
         entry 0 W' f c
         = entry 0 W f c
           - 1 / 10 * spec_gradient 2 W x (astype_float y) f c.
Proof.
  intros W x y self.
  apply (gradient_step self W x y); reflexivity.
Defined.

Lemma fit_labels_encoded (dt : int_dtype) (y_train y_test : list Z) :
  labels_ok dt y_train y_test ->
  exists mx Ytr Yte,
    array_max y_train = ret mx
    /\ wrap_dtype dt (mx + 1) = (mx + 1)%Z
    /\ make_one_versus_all_labels y_train (mx + 1) = ret Ytr
    /\ make_one_versus_all_labels y_test (mx + 1) = ret Yte.
Proof.
  intros [Hne [Hy Hy']].
  destruct (array_max_spec y_train Hne) as [mx [Hmax [Hin Hle]]].
  destruct (max_succ_fits dt y_train mx Hy Hmax) as [Hmx Hfit].
  destruct (make_one_versus_all_labels_rows y_train (mx + 1))
    as [Ytr [Htr _]]; [lia | |].
  { rewrite Forall_forall in *. intros j Hj.
    specialize (Hy j Hj). specialize (Hle j Hj). simpl in *. lia. }
  destruct (make_one_versus_all_labels_rows y_test (mx + 1))
    as [Yte [Hte _]]; [lia | |].
  { rewrite Forall_forall in *. intros j Hj.
    destruct (Hy' j Hj) as [H0 [j' [Hj' Hjj']]].
    specialize (Hle j' Hj'). simpl in *. lia. }
  exists mx, Ytr, Yte. auto.
Qed.

(** With [niter <= 0] no epoch runs: [fit] returns four empty lists and
    leaves the zero weights, whatever the shapes of the data. *)
Theorem fit_no_epoch (self : SVM) (x_train : ndarray R) (dt : int_dtype)
    (y_train : list Z) (x_test : ndarray R) (y_test : list Z) :
  (niter self <= 0)%Z ->
  labels_ok dt y_train y_test ->
  exists mx,
    array_max y_train = ret mx
    /\ fit self x_train dt y_train x_test y_test
       = ret (fit_init self x_train (mx + 1), mk_history [] [] [] []).
Proof.
  intros Hn Hlab.
  destruct (fit_labels_encoded dt y_train y_test Hlab)
    as [mx [Ytr [Yte [Hmax [Hfit [Htr Hte]]]]]].
  exists mx. split; [exact Hmax |].
  unfold fit. rewrite Hmax, bind_ret_l. cbv zeta.
  rewrite Hfit, Htr, bind_ret_l, Hte, bind_ret_l.
  replace (Z.to_nat (niter self)) with 0%nat by lia. reflexivity.
Qed.

Lemma toy_labels_ok (y_test : list Z) :
  Forall (fun j => j = 0 \/ j = 1)%Z y_test -> labels_ok int64 toy_y y_test.
Proof.
  intros Hy. unfold labels_ok, toy_y. split; [discriminate |]. split.
  - repeat constructor; vm_compute; congruence.
  - apply Forall_forall. intros j Hj. rewrite Forall_forall in Hy.
    specialize (Hy j Hj). simpl in Hy.
    split; [lia |]. exists 1%Z. split; [simpl; auto | lia].
Defined.

Lemma fit_no_epoch_witness :
  exists mx,
    array_max toy_y = ret mx
    /\ fit (init (1 / 100) (1 / 10) 0 4 false) (mk_ndarray 5 []) int64 toy_y
           toy_x [1%Z]
       = ret (fit_init (init (1 / 100) (1 / 10) 0 4 false) (mk_ndarray 5 [])
                       (mx + 1),
              mk_history [] [] [] []).
Proof.
  apply (fit_no_epoch (init (1 / 100) (1 / 10) 0 4 false) (mk_ndarray 5 [])
           int64 toy_y toy_x [1%Z]).
  - simpl. lia.
  - apply toy_labels_ok.
    repeat (apply Forall_cons; [auto |]). apply Forall_nil.
Defined.

(** With a batch size of zero the first epoch raises [ValueError]. *)
Theorem fit_zero_batch_size (self : SVM) (x_train : ndarray R)
    (dt : int_dtype) (y_train : list Z) (x_test : ndarray R)
    (y_test : list Z) :
  batch_size self = 0%Z ->
  (0 < niter self)%Z ->
  labels_ok dt y_train y_test ->
  fit self x_train dt y_train x_test y_test = raise ValueError.
Proof.
  intros Hb Hn Hlab.
  destruct (fit_labels_encoded dt y_train y_test Hlab)
    as [mx [Ytr [Yte [Hmax [Hfit [Htr Hte]]]]]].
  unfold fit. rewrite Hmax, bind_ret_l. cbv zeta.
  rewrite Hfit, Htr, bind_ret_l, Hte, bind_ret_l.
  destruct (Z.to_nat (niter self)) as [|n] eqn:En; [lia |].
  cbn [fit_loop]. unfold fit_epoch at 1. cbn [batch_size set_w].
  rewrite Hb. reflexivity.
Qed.

Lemma fit_zero_batch_size_witness :
  fit (init (1 / 100) (1 / 10) 50 0 false) toy_x int64 toy_y toy_x toy_y
  = raise ValueError.
Proof.
  apply (fit_zero_batch_size (init (1 / 100) (1 / 10) 50 0 false)
           toy_x int64 toy_y toy_x toy_y).
  - reflexivity.
  - simpl. lia.
  - apply toy_labels_ok. unfold toy_y.
    repeat (apply Forall_cons; [auto |]). apply Forall_nil.
Defined.

Lemma minibatch_negative {A B : Type} (X : ndarray A) (Y : ndarray B)
    (size : Z) :
  (size < 0)%Z -> minibatch X Y size = ret [].
Proof.
  intros Hs. unfold minibatch, py_range, range_len.
  replace ((size =? 0)%Z) with false by (symmetry; apply Z.eqb_neq; lia).
  replace ((0 <? size)%Z) with false by (symmetry; apply Z.ltb_ge; lia).
  replace ((Z.of_nat (len X) <? 0)%Z) with false
    by (symmetry; apply Z.ltb_ge; lia).
  reflexivity.
Qed.

Lemma fit_passes_negative (n : nat) (x_train : ndarray R) (y_train : ndarray Z)
    (self : SVM) :
  (batch_size self < 0)%Z -> fit_passes n x_train y_train self = ret self.
Proof.
  intros Hb. induction n as [|n IH]; [reflexivity |].
  cbn [fit_passes]. rewrite minibatch_negative by exact Hb.
  rewrite bind_ret_l. cbn [fit_pass]. rewrite bind_ret_l. exact IH.
Qed.

(** With a negative batch size [fit] never takes a step: whatever it
    returns, the weights it leaves are the zero weights it started from,
    one column for each of the [max(y_train) + 1] classes (the sum being
    computed in the dtype [dt] of the labels, where it is [max(y_train) + 1]
    itself when the labels are values of the dtype). *)
Theorem fit_negative_batch_size (self self' : SVM) (h : history)
    (x_train : ndarray R) (dt : int_dtype) (y_train : list Z)
    (x_test : ndarray R) (y_test : list Z) :
  (batch_size self < 0)%Z ->
  fit self x_train dt y_train x_test y_test = ret (self', h) ->
  exists mx,
    array_max y_train = ret mx
    /\ self' = fit_init self x_train (wrap_dtype dt (mx + 1))
    /\ w self'
       = Some (zeros (ncols x_train) (Z.to_nat (wrap_dtype dt (mx + 1))))
    /\ (in_dtype dt y_train -> wrap_dtype dt (mx + 1) = (mx + 1)%Z).
Proof.
  intros Hb Hfit.
  destruct (fit_inv _ _ _ _ _ _ _ _ Hfit)
    as [mx [Ytr [Yte [Hmax [Htr [Hte Hloop]]]]]].
  destruct (fit_loop_inv _ _ _ _ _ _ _ _ _ Hloop)
    as [tl [ta [tel [tea [_ [_ [_ [_ [Hpasses _]]]]]]]]].
  rewrite fit_passes_negative in Hpasses by exact Hb.
  injection Hpasses as <-.
  exists mx. repeat split; auto.
  intros Hdt. exact (encoded_max_fits dt y_train mx Ytr Hdt Hmax Htr).
Qed.

Lemma fit_loop_runs_negative (x_train : ndarray R) (y_train : ndarray Z)
    (x_test : ndarray R) (y_test : ndarray Z) (F k : nat) (self : SVM)
    (n : nat) :
  (batch_size self < 0)%Z ->
  weights_shape F k self ->
  (1 <= k)%nat ->
  ncols x_train = F -> (1 <= nrows x_train)%nat ->
  nrows y_train = nrows x_train -> ncols y_train = k ->
  ncols x_test = F -> (1 <= nrows x_test)%nat ->
  nrows y_test = nrows x_test -> ncols y_test = k ->
  forall h,
  exists st', fit_loop n x_train y_train x_test y_test (self, h) = ret st'.
Proof.
  intros Hb Hs Hk Hc Hn Hr Hyc Hc' Hn' Hr' Hyc'.
  destruct (measure_ok F k self x_train y_train Hs Hk Hc Hn Hr Hyc)
    as [l1 [a1 Hm1]].
  destruct (measure_ok F k self x_test y_test Hs Hk Hc' Hn' Hr' Hyc')
    as [l2 [a2 Hm2]].
  induction n as [|n IH]; intros h.
  - exists (self, h). reflexivity.
  - cbn [fit_loop]. unfold fit_epoch at 1.
    rewrite minibatch_negative by exact Hb.
    rewrite bind_ret_l. cbn [fit_pass].
    rewrite bind_ret_l, Hm1, bind_ret_l, Hm2, !bind_ret_l.
    apply IH.
Qed.

Lemma fit_negative_batch_size_witness :
  exists self' h,
    fit (init (1 / 100) (1 / 10) 3 (-4) false) toy_x int64 toy_y toy_x toy_y
    = ret (self', h)
    /\ w self' = Some (zeros 3 2).
Proof.
  set (self := init (1 / 100) (1 / 10) 3 (-4) false).
  set (Y := mk_ndarray 2 [[1; -1]; [-1; 1]; [1; -1]; [-1; 1]]%Z).
  assert (Hruns : exists st',
            fit self toy_x int64 toy_y toy_x toy_y = ret st').
  { unfold fit.
    change (array_max toy_y) with (ret 1%Z). rewrite bind_ret_l.
    change (wrap_dtype int64 (1 + 1)) with 2%Z.
    change (make_one_versus_all_labels toy_y 2) with (ret Y).
    rewrite !bind_ret_l.
    apply (fit_loop_runs_negative toy_x Y toy_x Y 3 2);
      try reflexivity; try (unfold nrows; simpl; lia).
    exists (zeros 3 2). repeat split. }
  destruct Hruns as [[self' h] Hfit].
  destruct (fit_negative_batch_size self self' h toy_x int64 toy_y
              toy_x toy_y)
    as [mx [Hmax [_ [Hw _]]]].
  - simpl. lia.
  - exact Hfit.
  - injection Hmax as <-. exists self', h. split; [exact Hfit | exact Hw].
Defined.

(** Labels [fit] rejects: without training labels the maximum raises
    [ValueError]; with training labels that are not negative and below the
    largest value of their dtype, a test label above every training label
    has no column and raises [IndexError]; and when the largest value of
    the dtype is a training label, [max + 1] wraps around, to the least
    value of the dtype: negative for a signed dtype, which raises
    [ValueError], and 0 for an unsigned one, where the first label raises
    [IndexError]. *)
Theorem fit_label_errors (self : SVM) (x_train : ndarray R) (dt : int_dtype)
    (y_train : list Z) (x_test : ndarray R) (y_test : list Z) :
  fit self x_train dt [] x_test y_test = raise ValueError
  /\ (y_train <> [] ->
      Forall (fun j => 0 <= j < dtype_max dt)%Z y_train ->
      Exists (fun j => forall j', In j' y_train -> (j' < j)%Z) y_test ->
      fit self x_train dt y_train x_test y_test = raise IndexError)
  /\ (in_dtype dt y_train ->
      In (dtype_max dt) y_train ->
      fit self x_train dt y_train x_test y_test
      = raise (if dtype_signed dt then ValueError else IndexError)).
Proof.
  split; [reflexivity |]. split.
  - intros Hne Hy Hex.
    destruct (array_max_spec y_train Hne) as [mx [Hmax [Hin Hle]]].
    destruct (max_succ_fits dt y_train mx Hy Hmax) as [Hmx Hfit].
    destruct (make_one_versus_all_labels_rows y_train (mx + 1))
      as [Ytr [Htr _]]; [lia | |].
    { rewrite Forall_forall in *. intros j Hj.
      specialize (Hy j Hj). specialize (Hle j Hj). simpl in *. lia. }
    unfold fit. rewrite Hmax, bind_ret_l. cbv zeta.
    rewrite Hfit, Htr, bind_ret_l.
    assert (Hte : make_one_versus_all_labels y_test (mx + 1)
                  = raise IndexError).
    { unfold make_one_versus_all_labels.
      replace ((mx + 1 <? 0)%Z) with false by (symmetry; apply Z.ltb_ge; lia).
      apply one_versus_all_loop_raises.
      - simpl. rewrite Z2Nat.id by lia.
        apply Exists_exists in Hex. destruct Hex as [j [Hj Hbig]].
        apply Exists_exists. exists j. split; [exact Hj |].
        specialize (Hbig mx Hin). lia.
      - rewrite nrows_full. simpl. lia. }
    now rewrite Hte.
  - intros Hdt Htop.
    assert (Hne : y_train <> []) by (intros E; rewrite E in Htop; inversion Htop).
    destruct (array_max_spec y_train Hne) as [mx [Hmax [Hin Hle]]].
    unfold in_dtype in Hdt. rewrite Forall_forall in Hdt, Hle.
    assert (Hmx : mx = dtype_max dt).
    { specialize (Hdt mx Hin). specialize (Hle _ Htop). simpl in *. lia. }
    destruct (dtype_bounds dt) as [Hmin Hsize].
    assert (Hw : wrap_dtype dt (mx + 1) = dtype_min dt).
    { unfold wrap_dtype.
      replace (mx + 1 - dtype_min dt)%Z with (1 * 2 ^ dtype_bits dt)%Z by lia.
      rewrite Z.mod_mul; [lia |]. destruct dt; discriminate. }
    unfold fit. rewrite Hmax, bind_ret_l. cbv zeta. rewrite Hw.
    unfold make_one_versus_all_labels at 1, dtype_min.
    destruct (dtype_signed dt) eqn:Hs.
    + replace ((- 2 ^ (dtype_bits dt - 1) <? 0)%Z) with true
        by (destruct dt; reflexivity).
      reflexivity.
    + change ((0 <? 0)%Z) with false. cbv iota.
      rewrite one_versus_all_loop_raises; [reflexivity | |].
      * apply Exists_exists. exists (dtype_max dt). split; [exact Htop |].
        simpl. lia.
      * rewrite nrows_full. simpl. lia.
Qed.

Lemma fit_label_errors_witness :
  fit toy_svm toy_x int64 [] toy_x toy_y = raise ValueError
  /\ fit toy_svm toy_x int64 toy_y toy_x [0; 2; 1; 0]%Z = raise IndexError
  /\ fit toy_svm toy_x int8 [0; 127; 1; 0]%Z toy_x toy_y = raise ValueError
  /\ fit toy_svm toy_x uint8 [0; 255; 1; 0]%Z toy_x toy_y = raise IndexError.
Proof.
  destruct (fit_label_errors toy_svm toy_x int64 toy_y toy_x [0; 2; 1; 0]%Z)
    as [Hempty [Hunseen _]].
  destruct (fit_label_errors toy_svm toy_x int8 [0; 127; 1; 0]%Z toy_x toy_y)
    as [_ [_ Hsigned]].
  destruct (fit_label_errors toy_svm toy_x uint8 [0; 255; 1; 0]%Z toy_x toy_y)
    as [_ [_ Hunsigned]].
  split; [exact Hempty |]. split; [| split].
  - apply Hunseen.
    + discriminate.
    + repeat constructor; vm_compute; congruence.
    + apply Exists_cons_tl, Exists_cons_hd.
      intros j' Hj'. simpl in Hj'.
      repeat (destruct Hj' as [<- | Hj']; [lia |]). contradiction.
  - apply Hsigned.
    + repeat constructor; vm_compute; congruence.
    + simpl. auto.
  - apply Hunsigned.
    + repeat constructor; vm_compute; congruence.
    + simpl. auto.
Defined.

(** [fit] starts from the hyperparameters alone: what an instance has
    stored before, weights included, has no part in the result.  So a
    second [fit] on the same data returns the same lists and leaves the
    same instance: there is no warm start. *)
Theorem fit_no_warm_start (s1 s2 : SVM) (x_train : ndarray R)
    (dt : int_dtype) (y_train : list Z) (x_test : ndarray R)
    (y_test : list Z) :
  eta s1 = eta s2 -> C s1 = C s2 -> niter s1 = niter s2 ->
  batch_size s1 = batch_size s2 -> verbose s1 = verbose s2 ->
  fit s1 x_train dt y_train x_test y_test
  = fit s2 x_train dt y_train x_test y_test
  /\ forall self' h,
       fit s1 x_train dt y_train x_test y_test = ret (self', h) ->
       fit self' x_train dt y_train x_test y_test = ret (self', h).
Proof.
  intros He HC Hn Hb Hv.
  assert (Hcfg : forall a b x y xt yt,
            eta a = eta b -> C a = C b -> niter a = niter b ->
            batch_size a = batch_size b -> verbose a = verbose b ->
            fit a x dt y xt yt = fit b x dt y xt yt).
  { intros a b x y xt yt E1 E2 E3 E4 E5. destruct a, b. simpl in *.
    subst. reflexivity. }
  split; [now apply Hcfg |].
  intros self' h Hfit. rewrite <- Hfit.
  destruct (fit_inv _ _ _ _ _ _ _ _ Hfit)
    as [mx [Ytr [Yte [_ [_ [_ Hloop]]]]]].
  destruct (fit_loop_inv _ _ _ _ _ _ _ _ _ Hloop)
    as [tl [ta [tel [tea [_ [_ [Hsame _]]]]]]].
  destruct Hsame as [E1 [E2 [E3 [E4 [E5 _]]]]]. simpl in *.
  apply Hcfg; congruence.
Qed.

Lemma fit_no_warm_start_witness :
  fit toy_svm toy_x int64 toy_y toy_x toy_y
  = fit (set_w toy_svm (mk_ndarray 2 [[5; 5]; [5; 5]; [5; 5]]))
        toy_x int64 toy_y toy_x toy_y.
Proof.
  apply (fit_no_warm_start toy_svm
           (set_w toy_svm (mk_ndarray 2 [[5; 5]; [5; 5]; [5; 5]]))
           toy_x int64 toy_y toy_x toy_y); reflexivity.
Defined.

(** ** More epochs extend the history *)

Lemma isub_w_with_niter (n : Z) (self : SVM) (d : ndarray R) :
  isub_w (with_niter n self) d
  = (s <- isub_w self d ;; ret (with_niter n s)).
Proof.
  unfold isub_w, get_w. cbn [with_niter w].
  destruct (w self) as [W |]; [| reflexivity].
  rewrite !bind_ret_l. destruct (subtract W d) as [e | r]; [reflexivity |].
  cbn [bind]. destruct ((nrows r =? nrows W)%nat && (ncols r =? ncols W)%nat);
    reflexivity.
Qed.

Lemma fit_pass_with_niter (n : Z) (batches : list (ndarray R * ndarray Z)) :
  forall self,
  fit_pass (with_niter n self) batches
  = (s <- fit_pass self batches ;; ret (with_niter n s)).
Proof.
  induction batches as [|[x y] rest IH]; intros self; [reflexivity |].
  cbn [fit_pass].
  change (compute_gradient (with_niter n self) x (astype_float y))
    with (compute_gradient self x (astype_float y)).
  destruct (compute_gradient self x (astype_float y)) as [e | grad];
    [reflexivity |].
  rewrite !bind_ret_l. change (eta (with_niter n self)) with (eta self).
  rewrite isub_w_with_niter.
  destruct (isub_w self (scale (eta self) grad)) as [e | s]; [reflexivity |].
  rewrite !bind_ret_l. apply IH.
Qed.

Lemma fit_passes_with_niter (n : Z) (x_train : ndarray R) (y_train : ndarray Z)
    (j : nat) :
  forall self,
  fit_passes j x_train y_train (with_niter n self)
  = (s <- fit_passes j x_train y_train self ;; ret (with_niter n s)).
Proof.
  induction j as [|j IH]; intros self; [reflexivity |].
  cbn [fit_passes]. change (batch_size (with_niter n self)) with (batch_size self).
  destruct (minibatch x_train y_train (batch_size self)) as [e | batches];
    [reflexivity |].
  rewrite !bind_ret_l, fit_pass_with_niter.
  destruct (fit_pass self batches) as [e | s]; [reflexivity |].
  rewrite !bind_ret_l. apply IH.
Qed.

Lemma firstn_nth_eq {T : Type} (d : T) (l1 l2 : list T) (n : nat) :
  length l1 = n -> (n <= length l2)%nat ->
  (forall j, (j < n)%nat -> nth j l1 d = nth j l2 d) ->
  l1 = firstn n l2.
Proof.
  intros H1 H2 Hnth. apply (nth_ext _ _ d d).
  - rewrite length_firstn. lia.
  - intros j Hj. rewrite nth_firstn.
    destruct (Nat.ltb_spec j n); [apply Hnth; lia | lia].
Qed.

(** Asking for more epochs only extends the four lists: the entries of a
    shorter run are the first entries of a longer one on the same data. *)
Theorem fit_history_prefix (self : SVM) (n2 : Z) (x_train : ndarray R)
    (dt : int_dtype) (y_train : list Z) (x_test : ndarray R)
    (y_test : list Z) (s1 s2 : SVM) (h1 h2 : history) :
  (niter self <= n2)%Z ->
  fit self x_train dt y_train x_test y_test = ret (s1, h1) ->
  fit (with_niter n2 self) x_train dt y_train x_test y_test = ret (s2, h2) ->
  train_losses h1 = firstn (epochs self) (train_losses h2)
  /\ train_accs h1 = firstn (epochs self) (train_accs h2)
  /\ test_losses h1 = firstn (epochs self) (test_losses h2)
  /\ test_accs h1 = firstn (epochs self) (test_accs h2).
Proof.
  intros Hle Hfit1 Hfit2.
  destruct (fit_inv _ _ _ _ _ _ _ _ Hfit1)
    as [mx [Ytr [Yte [Hmax [Htr [Hte Hloop1]]]]]].
  destruct (fit_inv _ _ _ _ _ _ _ _ Hfit2)
    as [mx' [Ytr' [Yte' [Hmax' [Htr' [Hte' Hloop2]]]]]].
  rewrite Hmax in Hmax'. injection Hmax' as <-.
  rewrite Htr in Htr'. injection Htr' as <-.
  rewrite Hte in Hte'. injection Hte' as <-.
  destruct (fit_loop_inv _ _ _ _ _ _ _ _ _ Hloop1)
    as [tl [ta [tel [tea [-> [[Hl1 [Hl2 [Hl3 Hl4]]] [_ [_ [_ Hnth1]]]]]]]]].
  destruct (fit_loop_inv _ _ _ _ _ _ _ _ _ Hloop2)
    as [tl' [ta' [tel' [tea' [-> [[Hl1' [Hl2' [Hl3' Hl4']]] [_ [_ [_ Hnth2]]]]]]]]].
  cbn [train_losses train_accs test_losses test_accs app].
  assert (Hep : (epochs self <= epochs (with_niter n2 self))%nat)
    by (unfold epochs; cbn [niter with_niter]; lia).
  assert (Hentries : forall j, (j < epochs self)%nat ->
            (nth j tl 0, nth j ta NonFinite) = (nth j tl' 0, nth j ta' NonFinite)
            /\ (nth j tel 0, nth j tea NonFinite)
               = (nth j tel' 0, nth j tea' NonFinite)).
  { intros j Hj.
    destruct (Hnth1 j Hj) as [sj [Hsj [Hm1 Hm2]]].
    destruct (Hnth2 j) as [sj' [Hsj' [Hm1' Hm2']]]; [lia |].
    change (fit_init (with_niter n2 self) x_train (wrap_dtype dt (mx + 1)))
      with (with_niter n2 (fit_init self x_train (wrap_dtype dt (mx + 1))))
      in Hsj'.
    rewrite fit_passes_with_niter, Hsj, bind_ret_l in Hsj'.
    injection Hsj' as <-.
    change (measure (with_niter n2 sj) x_train Ytr)
      with (measure sj x_train Ytr) in Hm1'.
    change (measure (with_niter n2 sj) x_test Yte)
      with (measure sj x_test Yte) in Hm2'.
    unfold ret in *. split; congruence. }
  split; [| split; [| split]].
  - apply (firstn_nth_eq 0); try lia.
    intros j Hj. destruct (Hentries j Hj) as [E1 E2]. congruence.
  - apply (firstn_nth_eq NonFinite); try lia.
    intros j Hj. destruct (Hentries j Hj) as [E1 E2]. congruence.
  - apply (firstn_nth_eq 0); try lia.
    intros j Hj. destruct (Hentries j Hj) as [E1 E2]. congruence.
  - apply (firstn_nth_eq NonFinite); try lia.
    intros j Hj. destruct (Hentries j Hj) as [E1 E2]. congruence.
Qed.

Lemma fit_history_prefix_witness :
  exists s1 h1 s2 h2,
    fit toy_svm toy_x int64 toy_y toy_x toy_y = ret (s1, h1)
    /\ fit (with_niter 60 toy_svm) toy_x int64 toy_y toy_x toy_y
       = ret (s2, h2)
    /\ train_losses h1 = firstn 50 (train_losses h2)
    /\ train_accs h1 = firstn 50 (train_accs h2)
    /\ test_losses h1 = firstn 50 (test_losses h2)
    /\ test_accs h1 = firstn 50 (test_accs h2).
Proof.
  destruct (fit_runs toy_svm toy_x int64 toy_y toy_x toy_y toy_inputs)
    as [[s1 h1] Hfit1].
  destruct (fit_runs (with_niter 60 toy_svm) toy_x int64 toy_y toy_x toy_y
              toy_inputs)
    as [[s2 h2] Hfit2].
  exists s1, h1, s2, h2. split; [exact Hfit1 |]. split; [exact Hfit2 |].
  apply (fit_history_prefix toy_svm 60 toy_x int64 toy_y toy_x toy_y
           s1 s2 h1 h2).
  - simpl. lia.
  - exact Hfit1.
  - exact Hfit2.
Defined.
